(** * MCP connection manager: service (app/lib/services/mcp.ts),
      check endpoint (app/routes/api.mcp-check.ts), connection panel
      (app/components/chat/MCPConnection.tsx) and configuration events
      (app/lib/hooks/useMCPConfig.ts)

    A shallow embedding of the TypeScript modules.  An asynchronous
    function becomes a [Task]: a computation that takes indivisible steps
    on a shared state, between which other tasks may run.  The state
    holds the local variables that the closures of a function share,
    together with a log of every interaction with the outside world
    (transports asked for, clients created, [tools()] and [close()]
    calls); a rejected promise or a [throw] is an abrupt completion.
    What the outside world answers is a parameter (a [Network]), and so
    is the order in which the units of work of the check take their
    steps (a schedule): the theorems about the check hold for all
    servers, healthy or not, and for all interleavings.

    Of the connection panel, the embedding has what starts the check
    and what shows its result: [checkServerAvailability], the effect
    that parses the text of the configuration, and the row of a server
    in the list.  Of the hook, it has the dispatcher
    [mcpConfigEvents]. *)

From Stdlib Require Import Ascii String.
From stdpp Require Import base option list gmap strings pretty.

Open Scope string_scope.
Open Scope list_scope.
Open Scope nat_scope.

#[local] Set Warnings "-clear-no-such-hyp".

(** ** JavaScript values that the code inspects *)

(** A thrown value.  The code only ever looks at a thrown value through
    [e instanceof Error ? e.message : String(e)]. *)
Inductive Thrown : Type :=
  | ErrorObject (message : string)
  | OtherValue (text : string).

(** How a statement, or an awaited promise, finishes. *)
Inductive Completion (A : Type) : Type :=
  | Normal (a : A)
  | Abrupt (e : Thrown).
Arguments Normal {A} a.
Arguments Abrupt {A} e.

(** mcp.ts, [errorToString]. *)
Definition errorToString (e : Thrown) : string :=
  match e with
  | ErrorObject message => message
  | OtherValue text => text
  end.

(** The double quote that the templates of the error messages contain. *)
Definition dq : string := String "034"%char EmptyString.

(** A template placeholder over an optional string: [undefined] prints
    as the word. *)
Definition interpolate (o : option string) : string :=
  match o with
  | Some s => s
  | None => "undefined"
  end.

(** Truthiness of an optional string field: [undefined] and the empty
    string are falsy. *)
Definition truthy (o : option string) : bool :=
  match o with
  | Some s => negb (String.eqb s "")
  | None => false
  end.

(** mcp.ts, [type ServerConfig]; the fields are taken at their declared
    types. *)
Record ServerConfig : Type := {
  command : option string;
  args : option (list string);
  url : option string;
  env : option (list (string * string));
  type : option string;
  cwd : option string;
}.

(** What is handed to [experimental_createMCPClient]: the literal
    [{ type: 'sse', url }] or a [new Experimental_StdioMCPTransport]
    built from the four fields of the configuration. *)
Inductive Transport : Type :=
  | SSETransport (url : option string)
  | StdioTransport (command : option string) (args : option (list string))
      (env : option (list (string * string))) (cwd : option string).

(** The tool set a server declares: tool name to opaque schema payload. *)
Abbreviation ToolSet := (gmap string string).

(** mcp.ts, [interface MCPClient].  A client answers its [k]-th call of
    [tools()] and of [close()]; the answer may differ from call to
    call. *)
Record Behaviour : Type := {
  tools_reply : nat -> Completion ToolSet;
  close_reply : nat -> Completion unit;
}.

(** A client object is told apart from the others by the server it was
    created for and a serial number among the clients of that server. *)
Record MCPClient : Type := {
  owner : string;
  serial : nat;
  behaviour : Behaviour;
}.

(** ** The outside world *)

Inductive Event : Type :=
  | Attempt (server : string) (t : Transport)
  | Created (server : string) (serial : nat)
  | ToolsCalled (server : string) (serial : nat)
  | CloseCalled (server : string) (serial : nat).

#[global] Instance Transport_eq_dec : EqDecision Transport.
Proof. solve_decision. Defined.
#[global] Instance Event_eq_dec : EqDecision Event.
Proof. solve_decision. Defined.

Abbreviation World := (list Event).

Definition count_event (e : Event) (w : World) : nat :=
  length (filter (fun e' => e' = e) w).

Definition server_of (e : Event) : string :=
  match e with
  | Attempt server _ | Created server _ | ToolsCalled server _
  | CloseCalled server _ => server
  end.

(** The part of the log that is about one server. *)
Definition view (server : string) (w : World) : World :=
  filter (fun e => server_of e = server) w.

(** A new client of a server gets a serial number above every one that
    the log mentions for that server. *)
Definition mentions (e : Event) : nat :=
  match e with
  | Attempt _ _ => 0
  | Created _ i | ToolsCalled _ i | CloseCalled _ i => S i
  end.

Definition fresh_serial (server : string) (w : World) : nat :=
  max_list (mentions <$> view server w).

(** What [experimental_createMCPClient] answers to the unit of work of
    server [server] asking for transport [t]. *)
Record Network : Type := {
  experimental_createMCPClient : string -> Transport -> Completion Behaviour;
}.

(** ** Computations *)

(** A task is finished, or takes one indivisible step on the state and
    goes on as the state it found tells. *)
Inductive Task (L A : Type) : Type :=
  | Finish (c : Completion A)
  | Yield (step : L * World -> L * World) (next : L * World -> Task L A).
Arguments Finish {L A} c.
Arguments Yield {L A} step next.

Definition ret {L A} (a : A) : Task L A := Finish (Normal a).

Definition throw {L A} (e : Thrown) : Task L A := Finish (Abrupt e).

Fixpoint bind {L A B} (t : Task L A) (k : A -> Task L B) : Task L B :=
  match t with
  | Finish (Normal a) => k a
  | Finish (Abrupt e) => Finish (Abrupt e)
  | Yield step next => Yield step (fun s => bind (next s) k)
  end.

Fixpoint try_catch {L A} (body : Task L A) (handler : Thrown -> Task L A)
  : Task L A :=
  match body with
  | Finish (Normal a) => Finish (Normal a)
  | Finish (Abrupt e) => handler e
  | Yield step next => Yield step (fun s => try_catch (next s) handler)
  end.

(** The settlement of a promise, observed without awaiting it. *)
Fixpoint settle {L A} (t : Task L A) : Task L (Completion A) :=
  match t with
  | Finish c => Finish (Normal c)
  | Yield step next => Yield step (fun s => settle (next s))
  end.

(** An assignment to the local variables. *)
Definition update {L} (f : L -> L) : Task L unit :=
  Yield (fun '(l, w) => (f l, w)) (fun _ => ret tt).

(** The local variables, read. *)
Definition locals {L} : Task L L :=
  Yield (fun s => s) (fun s => ret s.1).

(** A call to the outside world: it is logged, and answered as the log
    so far tells. *)
Definition interact {L A} (events : World -> list Event)
    (reply : World -> Completion A) : Task L A :=
  Yield (fun '(l, w) => (l, w ++ events w)) (fun s => Finish (reply s.2)).

(** A task run alone, from its first step to its completion. *)
Fixpoint run {L A} (t : Task L A) (s : L * World) : Completion A * (L * World) :=
  match t with
  | Finish c => (c, s)
  | Yield step next => run (next s) (step s)
  end.

Notation "x <- m ;; k" := (bind m (fun x => k))
  (at level 100, m at next level, right associativity).
Notation "m ;;; k" := (bind m (fun _ => k))
  (at level 100, right associativity).

Fixpoint for_each {L A} (f : A -> Task L unit) (l : list A) : Task L unit :=
  match l with
  | [] => ret tt
  | x :: rest => f x ;;; for_each f rest
  end.

(** [Promise.allSettled] on promises that run one after the other: every
    promise is brought to its settlement and the settlements are
    collected; nothing is thrown. *)
Fixpoint Promise_allSettled {L A} (ps : list (Task L A))
  : Task L (list (Completion A)) :=
  match ps with
  | [] => ret []
  | p :: rest =>
      c <- settle p ;;
      cs <- Promise_allSettled rest ;;
      ret (c :: cs)
  end.

(** Tasks that were started together: the schedule names, step by step,
    the task that moves next (a finished task, or a number that names no
    task, is passed over); when the schedule is used up, the tasks that
    are left run to their end in the order of the array.  The result is
    the list of the settlements. *)
Fixpoint interleave {L A} (schedule : list nat) (pool : list (Task L A))
  : Task L (list (Completion A)) :=
  match schedule with
  | [] => Promise_allSettled pool
  | i :: schedule =>
      match pool !! i with
      | Some (Yield step next) =>
          Yield step (fun s => interleave schedule (<[i := next s]> pool))
      | _ => interleave schedule pool
      end
  end.

Fixpoint first_rejection {A} (cs : list (Completion A)) : Completion (list A) :=
  match cs with
  | [] => Normal []
  | Abrupt e :: _ => Abrupt e
  | Normal a :: rest =>
      match first_rejection rest with
      | Normal l => Normal (a :: l)
      | Abrupt e => Abrupt e
      end
  end.

(** [Promise.all] on promises that the [map] building the array started
    together: they take their steps as the schedule says, and the
    combined promise rejects if one of them did.  (It is settled here
    once all of them are; the units of work of the check never reject,
    [check_unit_fulfils], so that it cannot be rejected any earlier.) *)
Definition Promise_all {L A} (schedule : list nat) (ps : list (Task L A))
  : Task L (list A) :=
  cs <- interleave schedule ps ;;
  Finish (first_rejection cs).

(** ** app/lib/services/mcp.ts *)

Section Service.
Variable net : Network.
Context {L : Type}.

(** [client.tools()] *)
Definition client_tools (client : MCPClient) : Task L ToolSet :=
  let call := ToolsCalled (owner client) (serial client) in
  interact (fun _ => [call])
    (fun w => tools_reply (behaviour client) (count_event call w)).

(** [client.close()] *)
Definition client_close (client : MCPClient) : Task L unit :=
  let call := CloseCalled (owner client) (serial client) in
  interact (fun _ => [call])
    (fun w => close_reply (behaviour client) (count_event call w)).

(** [await experimental_createMCPClient({ transport })]: a new client
    object on success. *)
Definition connect (serverName : string) (t : Transport) : Task L MCPClient :=
  interact
    (fun w =>
       match experimental_createMCPClient net serverName t with
       | Normal _ => [Attempt serverName t; Created serverName (fresh_serial serverName w)]
       | Abrupt _ => [Attempt serverName t]
       end)
    (fun w =>
       match experimental_createMCPClient net serverName t with
       | Normal b =>
           Normal {| owner := serverName; serial := fresh_serial serverName w;
                     behaviour := b |}
       | Abrupt e => Abrupt e
       end).

Definition createSSEClient (serverName : string) (url : option string)
  : Task L MCPClient :=
  try_catch
    (connect serverName (SSETransport url))
    (fun e =>
       throw (ErrorObject
         ("Failed to connect to SSE endpoint " +:+ dq +:+ interpolate url
            +:+ dq +:+ ": " +:+ errorToString e))).

Definition createStdioClient (serverName : string) (config : ServerConfig)
  : Task L MCPClient :=
  try_catch
    (connect serverName
       (StdioTransport (command config) (args config) (env config) (cwd config)))
    (fun e =>
       throw (ErrorObject
         ("Failed to start command " +:+ dq +:+ interpolate (command config)
            +:+ dq +:+ ": " +:+ errorToString e))).

(** [serverConfig.type === 'sse' || (!serverConfig.command && serverConfig.url)],
    as the conditions that follow read it. *)
Definition isSSE (serverConfig : ServerConfig) : bool :=
  bool_decide (type serverConfig = Some "sse")
  || (negb (truthy (command serverConfig)) && truthy (url serverConfig)).

(** The parameter is [None] for a falsy [serverConfig]; the result is
    [None] for [null], which the declared return type allows. *)
Definition createMCPClient (serverName : string)
    (serverConfig : option ServerConfig) : Task L (option MCPClient) :=
  match serverConfig with
  | None =>
      throw (ErrorObject
        ("Invalid configuration for server " +:+ dq +:+ serverName +:+ dq))
  | Some serverConfig =>
      if isSSE serverConfig && negb (truthy (url serverConfig)) then
        throw (ErrorObject
          ("Missing URL for SSE server " +:+ dq +:+ serverName +:+ dq))
      else if negb (isSSE serverConfig) && negb (truthy (command serverConfig)) then
        throw (ErrorObject
          ("Missing command for stdio server " +:+ dq +:+ serverName +:+ dq))
      else
        client <- (if isSSE serverConfig
                   then createSSEClient serverName (url serverConfig)
                   else createStdioClient serverName serverConfig) ;;
        try_catch
          (client_tools client ;;; ret (Some client))
          (fun e =>
             throw (ErrorObject
               ("Server connection established but failed to get available tools: "
                  +:+ errorToString e)))
  end.

(** [closeMCPClients]: [close()] is called on every client in turn, each
    promise gets a [catch] that logs, then all of them are awaited with
    [Promise.allSettled]. *)
Definition closeMCPClients (clients : list MCPClient) : Task L unit :=
  Promise_allSettled
    (map (fun client => try_catch (client_close client) (fun e => ret tt)) clients) ;;;
  ret tt.
End Service.

(** The two local variables of [createMCPClients]. *)
Record Aggregate : Type := {
  tools : ToolSet;
  clients : list MCPClient;
}.

(** The optional argument of [createMCPClients]; the entries of
    [mcpServers] are listed in the order of their enumeration. *)
Record McpConfig : Type := {
  mcpServers : option (list (string * option ServerConfig));
}.

Section Aggregation.
Variable net : Network.

(** [Object.assign(tools, toolSet)]: the properties of [toolSet] are
    written over those of [tools]. *)
Definition Object_assign (toolSet : ToolSet) (a : Aggregate) : Aggregate :=
  {| tools := toolSet ∪ tools a; clients := clients a |}.

Definition push (client : MCPClient) (a : Aggregate) : Aggregate :=
  {| tools := tools a; clients := clients a ++ [client] |}.

(** The body of the [for ... of] loop. *)
Definition init_server (entry : string * option ServerConfig)
  : Task Aggregate unit :=
  let '(serverName, serverConfig) := entry in
  try_catch
    (client <- createMCPClient net serverName serverConfig ;;
     match client with
     | Some client =>
         update (push client) ;;;
         toolSet <- client_tools client ;;
         update (Object_assign toolSet)
     | None => ret tt
     end)
    (fun error => ret tt).

Definition createMCPClients (mcpConfig : option McpConfig)
  : World -> Completion Aggregate * World :=
  fun w =>
    let start := {| tools := ∅; clients := [] |} in
    match mcpConfig ≫= mcpServers with
    | None => (Normal start, w)
    | Some servers =>
        match run (for_each init_server servers) (start, w) with
        | (Normal _, (a, w')) => (Normal a, w')
        | (Abrupt e, (_, w')) => (Abrupt e, w')
        end
    end.
End Aggregation.

(** ** app/routes/api.mcp-check.ts *)

(** The value of the [mcpServers] field of the request body.  The
    properties of an object are a finite map, so that no name occurs
    twice; their values are typed as [createMCPClient] declares its
    parameter, [None] standing for a falsy value such as [null]. *)
Inductive JSValue : Type :=
  | JSUndefined
  | JSNull
  | JSBoolean (b : bool)
  | JSNumber (n : Z)
  | JSString (s : string)
  | JSArray (items : list (option ServerConfig))
  | JSObject (props : gmap string (option ServerConfig)).

(** [!v] is [negb (js_truthy v)]. *)
Definition js_truthy (v : JSValue) : bool :=
  match v with
  | JSUndefined | JSNull => false
  | JSBoolean b => b
  | JSNumber n => negb (Z.eqb n 0)
  | JSString s => negb (String.eqb s "")
  | JSArray _ | JSObject _ => true
  end.

Definition typeof (v : JSValue) : string :=
  match v with
  | JSUndefined => "undefined"
  | JSNull => "object"
  | JSBoolean _ => "boolean"
  | JSNumber _ => "number"
  | JSString _ => "string"
  | JSArray _ | JSObject _ => "object"
  end.

(** [Object.entries] on the values that pass the guard of [action]: the
    own properties of an object, the indices of an array.  The order in
    which an object lists its properties is left to the finite map: the
    units of work that the check starts from the entries run
    interleaved, and [Promise_all_units] and [verdicts_permutation] show
    that the outcome depends neither on the schedule nor on the order
    of the entries. *)
Definition Object_entries (v : JSValue) : list (string * option ServerConfig) :=
  match v with
  | JSObject props => map_to_list props
  | JSArray items => imap (fun i item => (pretty i, item)) items
  | _ => []
  end.

(** What [await request.json()] yields when it does not reject: [null],
    or a value on which [const { mcpServers } = body] succeeds
    ([JSUndefined] when the body has no such field). *)
Inductive Body : Type :=
  | NullBody
  | ObjectBody (mcpServers : JSValue).

(** The three records that the units of work fill in, used as maps
    from server name to value: what is kept of a record is the
    properties of its own, which is what [Response.json] writes. *)
Record Stores : Type := {
  serverStatus : gmap string bool;
  serverErrors : gmap string string;
  serverTools : gmap string ToolSet;
}.

(** [record[k] = v] on a record that was created as [{}], as far as the
    properties of the record itself go.  Under every name but one the
    assignment adds the property, or writes over it.  Under the name
    "__proto__" it reaches the setter that every object inherits, and
    the record gets no property: the setter drops a value that is not
    an object, and makes an object the new prototype of the record. *)
Definition assign {A : Type} (k : string) (v : A) (record : gmap string A)
  : gmap string A :=
  if String.eqb k "__proto__" then record else <[k := v]> record.
Arguments assign : simpl never.

(** [serverStatus[k] = v]: under "__proto__" the boolean is dropped. *)
Definition set_serverStatus (k : string) (v : bool) (s : Stores) : Stores :=
  {| serverStatus := assign k v (serverStatus s);
     serverErrors := serverErrors s;
     serverTools := serverTools s |}.

(** [serverErrors[k] = v]: under "__proto__" the string is dropped. *)
Definition set_serverErrors (k : string) (v : string) (s : Stores) : Stores :=
  {| serverStatus := serverStatus s;
     serverErrors := assign k v (serverErrors s);
     serverTools := serverTools s |}.

(** [serverTools[k] = v]: under "__proto__" the tool set becomes the
    prototype of the record.  The prototype is not kept here: nothing
    in [action] reads the record before [Response.json] writes its own
    properties, and a later assignment adds its property whatever the
    prototype holds, tool sets being plain records. *)
Definition set_serverTools (k : string) (v : ToolSet) (s : Stores) : Stores :=
  {| serverStatus := serverStatus s;
     serverErrors := serverErrors s;
     serverTools := assign k v (serverTools s) |}.

Definition no_stores : Stores :=
  {| serverStatus := ∅; serverErrors := ∅; serverTools := ∅ |}.

Inductive Json : Type :=
  | ErrorJson (error : string)
  | CheckJson (result : Stores).

Record Response : Type := {
  status : nat;
  json : Json;
}.

Section Check.
Variable net : Network.

(** The [async] callback given to [Object.entries(mcpServers).map]. *)
Definition check_unit (entry : string * option ServerConfig) : Task Stores unit :=
  let '(serverName, serverConfig) := entry in
  try_catch
    (client <- createMCPClient net serverName serverConfig ;;
     match client with
     | Some client =>
         update (set_serverStatus serverName true) ;;;
         try_catch
           (tools <- client_tools client ;;
            update (set_serverTools serverName tools))
           (fun toolError =>
              update (set_serverErrors serverName
                ("Connected but failed to get tools: " +:+ errorToString toolError))) ;;;
         client_close client
     | None =>
         update (set_serverStatus serverName false) ;;;
         update (set_serverErrors serverName "Failed to create client")
     end)
    (fun error =>
       let errorMessage := errorToString error in
       update (set_serverStatus serverName false) ;;;
       update (set_serverErrors serverName errorMessage)).

Definition action_body (schedule : list nat) (request_json : Completion Body)
  : Task Stores Response :=
  try_catch
    (body <- Finish request_json ;;
     match body with
     | NullBody => throw (ErrorObject "TypeError")
     | ObjectBody mcpServers =>
         if negb (js_truthy mcpServers)
            || negb (String.eqb (typeof mcpServers) "object")
         then ret {| status := 400;
                     json := ErrorJson "Invalid MCP servers configuration" |}
         else
           let checkPromises := map check_unit (Object_entries mcpServers) in
           Promise_all schedule checkPromises ;;;
           result <- locals ;;
           ret {| status := 200; json := CheckJson result |}
     end)
    (fun error =>
       ret {| status := 500; json := ErrorJson "Failed to check MCP servers" |}).

(** [action]: the request is given by what [request.json()] settles to,
    and the units of work take their steps as the schedule says. *)
Definition action (schedule : list nat) (request_json : Completion Body)
  : World -> Completion Response * World :=
  fun w =>
    let '(c, (_, w')) := run (action_body schedule request_json) (no_stores, w) in
    (c, w').
End Check.

(** ** What one server's unit of work amounts to

    The functions below restate what the code above does for one server
    when its task runs alone; [createMCPClient_run], [check_unit_run] and
    [init_server_run] prove that the code computes exactly this. *)

Section Summary.
Variable net : Network.

(** The transport that [createMCPClient] asks for. *)
Definition request_of (serverConfig : ServerConfig) : Transport :=
  if isSSE serverConfig then SSETransport (url serverConfig)
  else StdioTransport (command serverConfig) (args serverConfig)
         (env serverConfig) (cwd serverConfig).

(** The message of the error thrown before any transport is asked
    for, if the configuration is refused. *)
Definition refusal (serverName : string) (c : ServerConfig) : option string :=
  if isSSE c && negb (truthy (url c)) then
    Some ("Missing URL for SSE server " +:+ dq +:+ serverName +:+ dq)
  else if negb (isSSE c) && negb (truthy (command c)) then
    Some ("Missing command for stdio server " +:+ dq +:+ serverName +:+ dq)
  else None.

Definition connect_failure (c : ServerConfig) (e : Thrown) : string :=
  if isSSE c then
    "Failed to connect to SSE endpoint " +:+ dq +:+ interpolate (url c)
      +:+ dq +:+ ": " +:+ errorToString e
  else
    "Failed to start command " +:+ dq +:+ interpolate (command c)
      +:+ dq +:+ ": " +:+ errorToString e.

Definition probe_failure (e : Thrown) : string :=
  "Server connection established but failed to get available tools: "
    +:+ errorToString e.

(** The connection to a server is established: its configuration is
    accepted and the network hands out a client. *)
Definition established (serverName : string) (c : ServerConfig) (b : Behaviour)
  : Prop :=
  refusal serverName c = None
  ∧ experimental_createMCPClient net serverName (request_of c) = Normal b.

(** How [createMCPClient] ends. *)
Definition creation (serverName : string) (serverConfig : option ServerConfig)
  : Completion Behaviour :=
  match serverConfig with
  | None =>
      Abrupt (ErrorObject
        ("Invalid configuration for server " +:+ dq +:+ serverName +:+ dq))
  | Some c =>
      match refusal serverName c with
      | Some message => Abrupt (ErrorObject message)
      | None =>
          match experimental_createMCPClient net serverName (request_of c) with
          | Abrupt e => Abrupt (ErrorObject (connect_failure c e))
          | Normal b =>
              match tools_reply b 0 with
              | Abrupt e => Abrupt (ErrorObject (probe_failure e))
              | Normal _ => Normal b
              end
          end
      end
  end.

(** What [createMCPClient] adds to the log [w]. *)
Definition creation_log (serverName : string)
    (serverConfig : option ServerConfig) (w : World) : list Event :=
  match serverConfig with
  | None => []
  | Some c =>
      match refusal serverName c with
      | Some _ => []
      | None =>
          let t := request_of c in
          let i := fresh_serial serverName w in
          match experimental_createMCPClient net serverName t with
          | Abrupt _ => [Attempt serverName t]
          | Normal _ =>
              [Attempt serverName t; Created serverName i; ToolsCalled serverName i]
          end
      end
  end.

(** What [check_unit] adds to the log [w]. *)
Definition unit_log (serverName : string)
    (serverConfig : option ServerConfig) (w : World) : list Event :=
  let i := fresh_serial serverName w in
  creation_log serverName serverConfig w
  ++ match creation serverName serverConfig with
     | Normal _ => [ToolsCalled serverName i; CloseCalled serverName i]
     | Abrupt _ => []
     end.

(** What [check_unit] writes into the three records. *)
Definition verdict (serverName : string) (serverConfig : option ServerConfig)
    (s : Stores) : Stores :=
  match creation serverName serverConfig with
  | Abrupt e =>
      set_serverErrors serverName (errorToString e)
        (set_serverStatus serverName false s)
  | Normal b =>
      let s1 := set_serverStatus serverName true s in
      let s2 :=
        match tools_reply b 1 with
        | Normal t => set_serverTools serverName t s1
        | Abrupt e =>
            set_serverErrors serverName
              ("Connected but failed to get tools: " +:+ errorToString e) s1
        end in
      match close_reply b 0 with
      | Normal _ => s2
      | Abrupt e =>
          set_serverErrors serverName (errorToString e)
            (set_serverStatus serverName false s2)
      end
  end.


(** What the units of work of a list of servers leave, when they run
    one after the other. *)
Definition verdicts (entries : list (string * option ServerConfig))
    (s : Stores) : Stores :=
  foldl (fun s entry => verdict entry.1 entry.2 s) s entries.

(** What [init_server], started on log [w], leaves in the two local
    variables of [createMCPClients]. *)
Definition harvest (serverName : string) (serverConfig : option ServerConfig)
    (w : World) (a : Aggregate) : Aggregate :=
  match creation serverName serverConfig with
  | Abrupt _ => a
  | Normal b =>
      let client :=
        {| owner := serverName; serial := fresh_serial serverName w;
           behaviour := b |} in
      match tools_reply b 1 with
      | Normal t => Object_assign t (push client a)
      | Abrupt _ => push client a
      end
  end.

(** What [init_server] adds to the log [w]. *)
Definition init_log (serverName : string)
    (serverConfig : option ServerConfig) (w : World) : list Event :=
  creation_log serverName serverConfig w
  ++ match creation serverName serverConfig with
     | Normal _ => [ToolsCalled serverName (fresh_serial serverName w)]
     | Abrupt _ => []
     end.

End Summary.

(** In the records, a server reported as unreachable has an error. *)
Definition accounted (s : Stores) : Prop :=
  ∀ name, serverStatus s !! name = Some false → is_Some (serverErrors s !! name).

(** The entry of one server in the response of the check. *)
Definition outcome (s : Stores) (serverName : string)
  : option bool * option string * option ToolSet :=
  (serverStatus s !! serverName, serverErrors s !! serverName,
   serverTools s !! serverName).

(** The part of the three records that belongs to a server. *)
Definition entry_of (server : string) (s : Stores)
  : option bool * option string * option ToolSet :=
  outcome s server.

(** [mcpServers] is present and is an object. *)
Definition is_object (v : JSValue) : bool :=
  match v with
  | JSArray _ | JSObject _ => true
  | _ => false
  end.

(** ** What a task can return

    Whatever the states that the task finds at its steps, it throws or
    returns a value of which [Q] holds. *)
Inductive returns {L A : Type} (Q : A -> Prop) : Task L A -> Prop :=
  | returns_Normal a : Q a -> returns Q (Finish (Normal a))
  | returns_Abrupt e : returns Q (Finish (Abrupt e))
  | returns_Yield step next :
      (∀ s, returns Q (next s)) → returns Q (Yield step next).

(** Whatever the states that the task finds at its steps, it does not
    end in a rejection. *)
Inductive fulfils {L A : Type} : Task L A -> Prop :=
  | fulfils_Normal a : fulfils (Finish (Normal a))
  | fulfils_Yield step next :
      (∀ s, fulfils (next s)) → fulfils (Yield step next).

(** ** Tasks that mind their own server

    What a task finds and leaves of the state, as far as one server is
    concerned: the part of the local variables that [proj] assigns to
    the server, and the part of the log that is about it. *)

Section Locality.
Context {L P : Type} (proj : string -> L -> P).

Definition foot (server : string) (s : L * World) : P * World :=
  (proj server s.1, view server s.2).

(** A task is local to a server when each of its steps changes the part
    of that server only, as that part alone tells, and the task goes
    on as that part alone tells; [Q] holds of the value that the task
    returns. *)
Inductive local (server : string) {A : Type} (Q : A -> Prop) : Task L A -> Prop :=
  | local_Normal a : Q a -> local server Q (Finish (Normal a))
  | local_Abrupt e : local server Q (Finish (Abrupt e))
  | local_Yield step next :
      (∀ s s', foot server s = foot server s' →
               foot server (step s) = foot server (step s')) →
      (∀ other s, other ≠ server → foot other (step s) = foot other s) →
      (∀ s s', foot server s = foot server s' → next s = next s') →
      (∀ s, local server Q (next s)) →
      local server Q (Yield step next).

(** Every task of the pool is local to the server of the same rank. *)
Definition minded {A : Type} (names : list string) (pool : list (Task L A)) : Prop :=
  Forall2 (fun name t => local name (fun _ => True) t) names pool.

(** The pool, started in state [s0], has come to [r]: every task has
    settled as it settles when it runs alone from [s0], has left for its
    server what it leaves when it runs alone, and nothing else has
    changed. *)
Definition settled_as_alone {A : Type} (names : list string)
    (pool : list (Task L A)) (s0 : L * World)
    (r : Completion (list (Completion A)) * (L * World)) : Prop :=
  r.1 = Normal (map (fun t => (run t s0).1) pool)
  ∧ (∀ j name t, names !! j = Some name → pool !! j = Some t →
                 foot name r.2 = foot name (run t s0).2)
  ∧ (∀ other, other ∉ names → foot other r.2 = foot other s0).
End Locality.

(** ** Sample servers, for the examples *)

Module Sample.
Definition stdio (c : string) : ServerConfig :=
  {| command := Some c; args := None; url := None; env := None;
     type := None; cwd := None |}.

Definition both : ServerConfig :=
  {| command := Some "npx"; args := None;
     url := Some "http://localhost:8000/sse"; env := None;
     type := None; cwd := None |}.

Definition neither : ServerConfig :=
  {| command := None; args := None; url := None; env := None;
     type := Some "stdio"; cwd := None |}.

Definition sse (u : option string) : ServerConfig :=
  {| command := None; args := None; url := u; env := None;
     type := Some "sse"; cwd := None |}.

(** Answers every call. *)
Definition healthy (t : ToolSet) : Behaviour :=
  {| tools_reply := fun _ => Normal t; close_reply := fun _ => Normal tt |}.

(** Accepts the connection, fails every [tools()]. *)
Definition mute : Behaviour :=
  {| tools_reply := fun _ => Abrupt (ErrorObject "Method not found");
     close_reply := fun _ => Normal tt |}.

(** Answers [tools()] once, when the client is created, then fails. *)
Definition fading (t : ToolSet) : Behaviour :=
  {| tools_reply := fun k =>
       match k with
       | 0 => Normal t
       | S _ => Abrupt (ErrorObject "Request timed out")
       end;
     close_reply := fun _ => Normal tt |}.

(** Answers [tools()], fails [close()]. *)
Definition sticky (t : ToolSet) : Behaviour :=
  {| tools_reply := fun _ => Normal t;
     close_reply := fun _ => Abrupt (ErrorObject "write EPIPE") |}.

Definition git_tools : ToolSet := {[ "log" := "{}" ]}.
Definition a_tools : ToolSet := {[ "x" := "from A"; "y" := "only A" ]}.
Definition b_tools : ToolSet := {[ "x" := "from B" ]}.

Definition net : Network :=
  {| experimental_createMCPClient := fun serverName _ =>
       if String.eqb serverName "git" then Normal (healthy git_tools)
       else if String.eqb serverName "A" then Normal (healthy a_tools)
       else if String.eqb serverName "B" then Normal (healthy b_tools)
       else if String.eqb serverName "mute" then Normal mute
       else if String.eqb serverName "fading" then Normal (fading git_tools)
       else if String.eqb serverName "sticky" then Normal (sticky git_tools)
       else Abrupt (ErrorObject "connection refused") |}.

Definition request (servers : list (string * option ServerConfig))
  : Completion Body :=
  Normal (ObjectBody (JSObject (list_to_map servers))).

(** The records of the response, or empty records for an error
    response. *)
Definition result_of (r : Completion Response * World) : Stores :=
  match r with
  | (Normal {| json := CheckJson result |}, _) => result
  | _ => no_stores
  end.
End Sample.

(** ** The loop of [createMCPClients], summed up

    What the [for ... of] loop leaves in the two local variables and in
    the log, server after server; [createMCPClients_harvests] proves that
    the code computes exactly this. *)

Definition harvests (net : Network)
    (servers : list (string * option ServerConfig))
    (s : Aggregate * World) : Aggregate * World :=
  foldl (fun s entry =>
           (harvest net entry.1 entry.2 s.2 s.1,
            s.2 ++ init_log net entry.1 entry.2 s.2))
        s servers.

Definition succeeded {A : Type} (c : Completion A) : bool :=
  match c with
  | Normal _ => true
  | Abrupt _ => false
  end.

(** What tells a client object apart from the others. *)
Definition ident (client : MCPClient) : string * nat :=
  (owner client, serial client).

(** ** More computations *)

(** [try { body } finally { finalizer }]: the finalizer runs however the
    body ends; the completion of the body stands unless the finalizer
    throws. *)
Fixpoint try_finally {L A} (body : Task L A) (finalizer : Task L unit)
  : Task L A :=
  match body with
  | Finish c => finalizer ;;; Finish c
  | Yield step next => Yield step (fun s => try_finally (next s) finalizer)
  end.

(** An awaited call that the outside world serves: the world moves on
    and answers as the world that the call found tells; the local
    variables are out of its reach. *)
Definition exchange {L A} (serve : World -> Completion A * World) : Task L A :=
  Yield (fun '(l, w) => (l, (serve w).2)) (fun s => Finish (serve s.2).1).

(** ** app/components/chat/MCPConnection.tsx *)

(** The state variables of [McpConnection] that the check and the list
    of the servers read and write.  [serverStatus], [serverErrors] and
    [serverTools] are kept together in [records], each with the
    properties of its own; they are plain objects. *)
Record Panel : Type := {
  error : option string;
  records : Stores;
  checkingServers : bool;
  expandedServer : option string;
}.

Definition setError (v : option string) (p : Panel) : Panel :=
  {| error := v; records := records p;
     checkingServers := checkingServers p; expandedServer := expandedServer p |}.

Definition setServerStatus (v : gmap string bool) (p : Panel) : Panel :=
  {| error := error p;
     records := {| serverStatus := v;
                   serverErrors := serverErrors (records p);
                   serverTools := serverTools (records p) |};
     checkingServers := checkingServers p; expandedServer := expandedServer p |}.

Definition setServerErrors (v : gmap string string) (p : Panel) : Panel :=
  {| error := error p;
     records := {| serverStatus := serverStatus (records p);
                   serverErrors := v;
                   serverTools := serverTools (records p) |};
     checkingServers := checkingServers p; expandedServer := expandedServer p |}.

Definition setServerTools (v : gmap string ToolSet) (p : Panel) : Panel :=
  {| error := error p;
     records := {| serverStatus := serverStatus (records p);
                   serverErrors := serverErrors (records p);
                   serverTools := v |};
     checkingServers := checkingServers p; expandedServer := expandedServer p |}.

Definition setCheckingServers (v : bool) (p : Panel) : Panel :=
  {| error := error p; records := records p;
     checkingServers := v; expandedServer := expandedServer p |}.

Definition setExpandedServer (v : option string) (p : Panel) : Panel :=
  {| error := error p; records := records p;
     checkingServers := checkingServers p; expandedServer := v |}.

(** A property of the object that [response.json()] yields: not there
    (the [in] test fails), there with a falsy value, or there with an
    object. *)
Inductive Member (A : Type) : Type :=
  | Absent
  | Falsy
  | Present (a : A).
Arguments Absent {A}.
Arguments Falsy {A}.
Arguments Present {A} a.

(** What [await response.json()] yields when it does not reject.  The
    property [serverStatus], when it is there, is taken at the type that
    the code casts it to. *)
Inductive Data : Type :=
  | NotAnObject
  | DataObject (status_member : option (gmap string bool))
      (errors_member : Member (gmap string string))
      (tools_member : Member (gmap string ToolSet)).

(** ['k' in data] *)
Definition has {A : Type} (member : Member A) : bool :=
  match member with
  | Absent => false
  | Falsy | Present _ => true
  end.

(** [member || {}] *)
Definition or_empty {A : Type} `{Empty A} (member : Member A) : A :=
  match member with
  | Present a => a
  | Absent | Falsy => ∅
  end.

(** What the code reads of the response that [fetch] resolves to. *)
Record FetchResponse : Type := {
  ok : bool;
  response_status : nat;
  statusText : string;
  response_json : Completion Data;
}.

Section Connection.
(** [fetch('/api/mcp-check', { method: 'POST', ..., body:
    JSON.stringify({ mcpServers }) })], as a function of [mcpServers]. *)
Variable fetch : JSValue -> World -> Completion FetchResponse * World.

(** [checkServerAvailability]; the parameter is what
    [JSON.parse(configText)] gives: an exception, [null], or a value
    whose property [mcpServers] is read ([JSUndefined] when there is
    none). *)
Definition checkServerAvailability (JSON_parse : Completion Body)
  : Task Panel unit :=
  try_catch
    (parsed <- Finish JSON_parse ;;
     let mcpServers :=
       match parsed with
       | NullBody => JSUndefined
       | ObjectBody mcpServers => mcpServers
       end in
     if negb (js_truthy mcpServers) then
       update (setError (Some "No servers configured or invalid configuration"))
     else
       update (setCheckingServers true) ;;;
       update (setError None) ;;;
       update (setServerErrors ∅) ;;;
       update (setServerTools ∅) ;;;
       try_finally
         (try_catch
            (response <- exchange (fetch mcpServers) ;;
             if negb (ok response) then
               throw (ErrorObject
                 ("Server responded with " +:+ pretty (response_status response)
                    +:+ ": " +:+ statusText response))
             else
               data <- Finish (response_json response) ;;
               match data with
               | DataObject (Some status_member) errors_member tools_member =>
                   if has errors_member then
                     update (setServerStatus status_member) ;;;
                     update (setServerErrors (or_empty errors_member)) ;;;
                     if has tools_member then
                       update (setServerTools (or_empty tools_member))
                     else ret tt
                   else throw (ErrorObject "Invalid response format from server")
               | _ => throw (ErrorObject "Invalid response format from server")
               end)
            (fun e =>
               update (setError
                 (Some ("Failed to check server availability: "
                          +:+ errorToString e)))))
         (update (setCheckingServers false)))
    (fun e =>
       update (setError (Some ("Invalid JSON format: " +:+ errorToString e))) ;;;
       update (setCheckingServers false)).
End Connection.

(** [haystack.includes(needle)] *)
Fixpoint includes (needle haystack : string) : bool :=
  String.prefix needle haystack
  || match haystack with
     | EmptyString => false
     | String _ rest => includes needle rest
     end.

(** The effect that parses the text of the configuration; it runs
    after a rendering in which [configText] or [error] has changed.  The
    parameter is what [JSON.parse(configText)] gives.  The result is the
    value that [configTextParsed] is set to ([NullBody] for [null]) and
    the panel. *)
Definition parse_effect (JSON_parse : Completion Body) (p : Panel)
  : Body * Panel :=
  match JSON_parse with
  | Normal parsed =>
      (parsed,
       if from_option (includes "JSON") false (error p)
       then setError None p else p)
  | Abrupt e =>
      (NullBody,
       setError (Some ("Invalid JSON format: " +:+ errorToString e)) p)
  end.

(** The [status] that a [StatusBadge] is given. *)
Inductive Badge : Type :=
  | checking
  | available
  | unavailable.

(** The names of the properties that every plain object inherits from
    [Object.prototype]: its methods, and the accessor "__proto__". *)
Definition Object_prototype : list string :=
  ["constructor"; "__defineGetter__"; "__defineSetter__"; "hasOwnProperty";
   "__lookupGetter__"; "__lookupSetter__"; "isPrototypeOf";
   "propertyIsEnumerable"; "toString"; "valueOf"; "__proto__";
   "toLocaleString"].

Definition inherited (k : string) : bool :=
  bool_decide (k ∈ Object_prototype).

(** What [record[k]] gives for a plain object [record]: the property of
    the record itself when it has one; else the inherited property, a
    function or, for "__proto__", the prototype; else [undefined]. *)
Inductive Read (A : Type) : Type :=
  | Own (a : A)
  | Inherited
  | Undefined.
Arguments Own {A} a.
Arguments Inherited {A}.
Arguments Undefined {A}.

Definition read {A : Type} (record : gmap string A) (k : string) : Read A :=
  match record !! k with
  | Some a => Own a
  | None => if inherited k then Inherited else Undefined
  end.

(** [k in record] *)
Definition has_property {A : Type} (record : gmap string A) (k : string) : bool :=
  match read record k with
  | Undefined => false
  | Own _ | Inherited => true
  end.

(** Truthiness of what was read, [own] being that of the values of the
    record: a function and the prototype are truthy. *)
Definition truthy_read {A : Type} (own : A -> bool) (r : Read A) : bool :=
  match r with
  | Own a => own a
  | Inherited => true
  | Undefined => false
  end.

(** What the list shows of one server: the text beside its name, the
    badge, the value that the error line shows and the value whose tools
    the tool panel lists, each if it is there. *)
Record Row : Type := {
  summary : string;
  badge : option Badge;
  errorLine : option (Read string);
  toolPanel : option (Read ToolSet);
}.

(** The callback that [renderServerList] maps over the entries of
    [configTextParsed.mcpServers].  The value of the entry is an object
    or, for [None], [null]: reading [serverConfig.type] then throws a
    [TypeError], and there is no row.  The three records are plain
    objects, so that the name of an inherited property is found in
    them. *)
Definition renderServer (p : Panel) (serverName : string)
    (serverConfig : option ServerConfig) : option Row :=
  let isAvailable := read (serverStatus (records p)) serverName in
  let statusKnown := has_property (serverStatus (records p)) serverName in
  let errorMessage := read (serverErrors (records p)) serverName in
  let serverToolsData := read (serverTools (records p)) serverName in
  let isExpanded := bool_decide (expandedServer p = Some serverName) in
  match serverConfig with
  | None => None
  | Some serverConfig =>
      Some
        {| summary :=
             if bool_decide (type serverConfig = Some "sse") then
               "SSE: " +:+ default "" (url serverConfig)
             else
               default "" (command serverConfig) +:+ " "
                 +:+ default "" (String.concat " " <$> args serverConfig);
           badge :=
             if checkingServers p then Some checking
             else if statusKnown then
               Some (if truthy_read id isAvailable then available
                     else unavailable)
             else None;
           errorLine :=
             if statusKnown && negb (truthy_read id isAvailable)
                && truthy_read (fun s => negb (String.eqb s "")) errorMessage
             then Some errorMessage else None;
           toolPanel :=
             if isExpanded && statusKnown && truthy_read id isAvailable
                && truthy_read (fun _ => true) serverToolsData
             then Some serverToolsData else None |}
  end.

(** What [renderServerList] returns: a notice, or the rows of the
    servers with their names, in the order of the entries. *)
Inductive ServerList : Type :=
  | Notice (text : string)
  | Rows (rows : list (string * Row)).

(** [renderServerList] from [serverEntries] on, that is for a
    [configTextParsed.mcpServers] that is an object or an array, which
    the guard before lets through.  When the callback throws for an
    entry, so does the list. *)
Definition renderServerList (p : Panel)
    (serverEntries : list (string * option ServerConfig)) : option ServerList :=
  if (length serverEntries =? 0)%nat then
    Some (Notice "No MCP servers configured")
  else
    Rows <$> mapM (fun '(serverName, serverConfig) =>
                     pair serverName <$> renderServer p serverName serverConfig)
               serverEntries.

(** ** The check, as the connection panel reaches it

    The route [/api/mcp-check] is served by [action]: the body that the
    panel posts is what [request.json()] yields, and the response that
    [fetch] resolves to carries the status and the JSON value of the
    response that [action] returns.  The reason phrase that goes with a
    status is the business of the HTTP layer. *)

Definition http_ok (status : nat) : bool :=
  (200 <=? status) && (status <=? 299).

Definition data_of (j : Json) : Data :=
  match j with
  | ErrorJson _ => DataObject None Absent Absent
  | CheckJson result =>
      DataObject (Some (serverStatus result)) (Present (serverErrors result))
        (Present (serverTools result))
  end.

Definition mcp_check_route (net : Network) (schedule : list nat)
    (reason : nat -> string) (mcpServers : JSValue)
  : World -> Completion FetchResponse * World :=
  fun w =>
    let '(c, w') := action net schedule (Normal (ObjectBody mcpServers)) w in
    (match c with
     | Normal r =>
         Normal {| ok := http_ok (status r);
                   response_status := status r;
                   statusText := reason (status r);
                   response_json := Normal (data_of (json r)) |}
     | Abrupt e => Abrupt e
     end, w').

(** ** app/lib/hooks/useMCPConfig.ts, [mcpConfigEvents]

    The [Set] of the listeners is the list of its elements in the order
    of their insertion.  Callbacks are told apart as the objects they
    are; what calling one does is a parameter, and it is taken not to
    add or delete listeners itself (the one listener that the code
    registers reloads the configuration). *)

Module mcpConfigEvents.
Section Listeners.
Context {Callback : Type} `{EqDecision Callback}.

(** [listeners.add(callback)] *)
Definition Set_add (callback : Callback) (listeners : list Callback)
  : list Callback :=
  if decide (callback ∈ listeners) then listeners else listeners ++ [callback].

(** [listeners.delete(callback)] *)
Definition Set_delete (callback : Callback) (listeners : list Callback)
  : list Callback :=
  filter (fun c => c ≠ callback) listeners.

(** [addListener]: the new set, and the function that it returns. *)
Definition addListener (callback : Callback) (listeners : list Callback)
  : list Callback * (list Callback -> list Callback) :=
  (Set_add callback listeners, Set_delete callback).

Context {State : Type} (call : Callback -> State -> Completion unit * State).

(** [notifyChange]: [listeners.forEach((callback) => callback())]. *)
Fixpoint notifyChange (listeners : list Callback) (s : State)
  : Completion unit * State :=
  match listeners with
  | [] => (Normal tt, s)
  | callback :: rest =>
      match call callback s with
      | (Normal _, s') => notifyChange rest s'
      | (Abrupt e, s') => (Abrupt e, s')
      end
  end.
End Listeners.
End mcpConfigEvents.

(** ** Clients that are accounted for

    The clients of the list are distinct objects; each was created
    after the log [w0], and the log [w] records its creation once. *)
Definition accounted_clients (w0 w : World) (cs : list MCPClient) : Prop :=
  NoDup (ident <$> cs)
  ∧ ∀ c, c ∈ cs →
      fresh_serial (owner c) w0 ≤ serial c
      ∧ serial c < fresh_serial (owner c) w
      ∧ count_event (Created (owner c) (serial c)) w = 1.

(** * Properties *)

(** ** The log *)

Lemma count_event_app e (w1 w2 : World) :
  count_event e (w1 ++ w2) = count_event e w1 + count_event e w2.
Proof. unfold count_event. by rewrite filter_app, length_app. Qed.

Lemma count_event_nil e : count_event e [] = 0.
Proof. reflexivity. Qed.

Lemma count_event_cons e e' (w : World) :
  count_event e (e' :: w) = (if decide (e' = e) then 1 else 0) + count_event e w.
Proof.
  unfold count_event. rewrite filter_cons. by destruct (decide (e' = e)).
Qed.

Lemma view_app server (w1 w2 : World) :
  view server (w1 ++ w2) = view server w1 ++ view server w2.
Proof. unfold view. by rewrite filter_app. Qed.

Lemma view_cons server e (w : World) :
  view server (e :: w)
  = if decide (server_of e = server) then e :: view server w else view server w.
Proof. unfold view. by rewrite filter_cons. Qed.

Lemma view_own server (evs : list Event) :
  Forall (fun e => server_of e = server) evs → view server evs = evs.
Proof.
  induction 1 as [|e evs He _ IH]; [done|].
  by rewrite view_cons, decide_True, IH.
Qed.

Lemma view_other server other (evs : list Event) :
  other ≠ server →
  Forall (fun e => server_of e = server) evs → view other evs = [].
Proof.
  intros Hne. induction 1 as [|e evs He _ IH]; [done|].
  rewrite view_cons, decide_False, IH; congruence.
Qed.

(** The calls on a client are counted in the part of the log that is
    about its server. *)
Lemma count_event_view e (w : World) :
  count_event e w = count_event e (view (server_of e) w).
Proof.
  induction w as [|e' w IH]; [done|].
  rewrite view_cons, count_event_cons, IH.
  destruct (decide (e' = e)) as [->|Hne].
  - by rewrite decide_True, count_event_cons, decide_True.
  - case_decide; [|done]. by rewrite count_event_cons, decide_False.
Qed.

Lemma fresh_serial_cons server e (w : World) :
  fresh_serial server (e :: w)
  = (if decide (server_of e = server) then mentions e else 0)
    `max` fresh_serial server w.
Proof. unfold fresh_serial. rewrite view_cons. by case_decide. Qed.

Lemma fresh_serial_app server (w1 w2 : World) :
  fresh_serial server (w1 ++ w2)
  = fresh_serial server w1 `max` fresh_serial server w2.
Proof.
  induction w1 as [|e w1 IH]; [done|].
  rewrite <- app_comm_cons, !fresh_serial_cons, IH. lia.
Qed.

Lemma count_event_unmentioned e (w : World) :
  fresh_serial (server_of e) w < mentions e → count_event e w = 0.
Proof.
  intros Hlt. induction w as [|e' w IH]; [done|].
  rewrite fresh_serial_cons in Hlt. rewrite count_event_cons.
  destruct (decide (e' = e)) as [->|_].
  - rewrite decide_True in Hlt by done. lia.
  - rewrite IH by lia. done.
Qed.

(** ** Tasks run alone *)

Section Runs.
Context {L : Type}.
Implicit Types (l : L) (w : World) (s : L * World).

Lemma run_bind {A B} (t : Task L A) (k : A → Task L B) s :
  run (bind t k) s
  = match run t s with
    | (Normal a, s') => run (k a) s'
    | (Abrupt e, s') => (Abrupt e, s')
    end.
Proof.
  revert s. induction t as [[a|e]|step next IH]; intros s; [done|done|].
  simpl. apply IH.
Qed.

Lemma run_try_catch {A} (body : Task L A) (handler : Thrown → Task L A) s :
  run (try_catch body handler) s
  = match run body s with
    | (Normal a, s') => (Normal a, s')
    | (Abrupt e, s') => run (handler e) s'
    end.
Proof.
  revert s. induction body as [[a|e]|step next IH]; intros s; [done|done|].
  simpl. apply IH.
Qed.

Lemma run_settle {A} (t : Task L A) s :
  run (settle t) s = let '(c, s') := run t s in (Normal c, s').
Proof.
  revert s. induction t as [c|step next IH]; intros s; [done|].
  simpl. apply IH.
Qed.

Lemma run_update (f : L → L) l w : run (update f) (l, w) = (Normal tt, (f l, w)).
Proof. reflexivity. Qed.

Lemma run_interact {A} (events : World → list Event)
    (reply : World → Completion A) l w :
  run (interact events reply) (l, w) = (reply w, (l, w ++ events w)).
Proof. reflexivity. Qed.

Lemma fulfils_bind {A B} (t : Task L A) (k : A → Task L B) :
  fulfils t → (∀ a, fulfils (k a)) → fulfils (bind t k).
Proof.
  intros Ht Hk. induction Ht as [a|step next _ IH]; simpl; [done|].
  by apply fulfils_Yield.
Qed.

(** A [try] whose [catch] does not throw does not throw. *)
Lemma fulfils_try_catch {A} (body : Task L A) (handler : Thrown → Task L A) :
  (∀ e, fulfils (handler e)) → fulfils (try_catch body handler).
Proof.
  intros Hhandler. induction body as [[a|e]|step next IH]; simpl.
  - apply fulfils_Normal.
  - apply Hhandler.
  - by apply fulfils_Yield.
Qed.

Lemma fulfils_update (f : L → L) : fulfils (update f).
Proof. apply fulfils_Yield. intros s. apply fulfils_Normal. Qed.

Lemma run_fulfils {A} (t : Task L A) s : fulfils t → ∃ a, (run t s).1 = Normal a.
Proof.
  intros Ht. revert s. induction Ht as [a|step next _ IH]; intros s; simpl.
  - by exists a.
  - apply IH.
Qed.
End Runs.

(** ** The service, run alone *)

Section ServiceRuns.
Variable net : Network.
Context {L : Type}.
Implicit Types (l : L) (w : World) (c : MCPClient).

Lemma client_tools_run c l w :
  run (client_tools c) (l, w) =
    (tools_reply (behaviour c) (count_event (ToolsCalled (owner c) (serial c)) w),
     (l, w ++ [ToolsCalled (owner c) (serial c)])).
Proof. reflexivity. Qed.

Lemma client_close_run c l w :
  run (client_close c) (l, w) =
    (close_reply (behaviour c) (count_event (CloseCalled (owner c) (serial c)) w),
     (l, w ++ [CloseCalled (owner c) (serial c)])).
Proof. reflexivity. Qed.

Lemma connect_run name t l w :
  run (connect net name t) (l, w) =
    match experimental_createMCPClient net name t with
    | Normal b =>
        let i := fresh_serial name w in
        (Normal {| owner := name; serial := i; behaviour := b |},
         (l, w ++ [Attempt name t; Created name i]))
    | Abrupt e => (Abrupt e, (l, w ++ [Attempt name t]))
    end.
Proof.
  unfold connect. rewrite run_interact.
  by destruct (experimental_createMCPClient net name t).
Qed.

(** A client that was just created has not been called yet. *)
Lemma count_event_new_client e name t w :
  server_of e = name →
  mentions e = S (fresh_serial name w) →
  e ≠ Created name (fresh_serial name w) →
  count_event e (w ++ [Attempt name t; Created name (fresh_serial name w)]) = 0.
Proof.
  intros Hserver He Hne.
  rewrite count_event_app, !count_event_cons, count_event_nil.
  rewrite count_event_unmentioned by (rewrite Hserver; lia).
  rewrite !decide_False; [done|done|]. intros <-. discriminate.
Qed.

(** [createMCPClient] ends as [creation] says and logs what
    [creation_log] says. *)
Lemma createMCPClient_run name cfg l w :
  run (createMCPClient net name cfg) (l, w) =
    (match creation net name cfg with
     | Normal b =>
         Normal (Some {| owner := name; serial := fresh_serial name w;
                         behaviour := b |})
     | Abrupt e => Abrupt e
     end,
     (l, w ++ creation_log net name cfg w)).
Proof.
  unfold creation, creation_log, createMCPClient, refusal.
  destruct cfg as [c|]; [|by rewrite app_nil_r].
  destruct (isSSE c && negb (truthy (url c))) eqn:Hurl;
    [by rewrite app_nil_r|].
  destruct (negb (isSSE c) && negb (truthy (command c))) eqn:Hcmd;
    [by rewrite app_nil_r|].
  rewrite run_bind.
  assert (run (if isSSE c then createSSEClient net name (url c)
               else createStdioClient net name c) (l, w)
    = match experimental_createMCPClient net name (request_of c) with
      | Normal b =>
          (Normal {| owner := name; serial := fresh_serial name w; behaviour := b |},
           (l, w ++ [Attempt name (request_of c);
                     Created name (fresh_serial name w)]))
      | Abrupt e =>
          (Abrupt (ErrorObject (connect_failure c e)),
           (l, w ++ [Attempt name (request_of c)]))
      end) as ->.
  { unfold request_of, connect_failure.
    destruct (isSSE c); unfold createSSEClient, createStdioClient;
      rewrite run_try_catch, connect_run;
      by destruct (experimental_createMCPClient net name _). }
  cbv zeta.
  destruct (experimental_createMCPClient net name (request_of c)) as [b|e];
    [|done].
  rewrite run_try_catch, run_bind, client_tools_run. cbn [owner serial behaviour].
  rewrite count_event_new_client by done.
  rewrite <- !app_assoc. cbn [app].
  by destruct (tools_reply b 0) as [t|e].
Qed.

(** The client that [createMCPClient] returns has answered [tools()]
    once and has not been closed. *)
Lemma new_client_calls name cfg w b :
  creation net name cfg = Normal b →
  let i := fresh_serial name w in
  let w' := w ++ creation_log net name cfg w in
  count_event (Created name i) w' = 1
  ∧ count_event (ToolsCalled name i) w' = 1
  ∧ count_event (CloseCalled name i) w' = 0.
Proof.
  unfold creation, creation_log. destruct cfg as [c|]; [|done].
  destruct (refusal name c); [done|].
  destruct (experimental_createMCPClient net name (request_of c)); [|done].
  intros _. cbv zeta.
  assert (∀ e, server_of e = name → mentions e = S (fresh_serial name w) →
               count_event e w = 0) as Hnew.
  { intros e Hserver He. apply count_event_unmentioned. rewrite Hserver. lia. }
  rewrite !count_event_app, !Hnew, !count_event_cons, !count_event_nil by done.
  repeat case_decide; simplify_eq; done.
Qed.
End ServiceRuns.

(** ** Assignments to a record *)

Section Assign.
Context {A : Type}.
Implicit Types (k : string) (v : A) (m : gmap string A).

Lemma assign_proto v m : assign "__proto__" v m = m.
Proof. done. Qed.

Lemma assign_insert k v m : k ≠ "__proto__" → assign k v m = <[k := v]> m.
Proof.
  intros Hk. unfold assign. apply String.eqb_neq in Hk. by rewrite Hk.
Qed.

Lemma assign_lookup_ne k k' v m : k ≠ k' → assign k v m !! k' = m !! k'.
Proof.
  intros Hne. unfold assign. destruct (String.eqb k "__proto__"); [done|].
  by rewrite lookup_insert_ne.
Qed.

Lemma assign_lookup_eq k v m : k ≠ "__proto__" → assign k v m !! k = Some v.
Proof. intros Hk. by rewrite assign_insert, lookup_insert_eq. Qed.

Lemma assign_lookup_local k v m m' :
  m !! k = m' !! k → assign k v m !! k = assign k v m' !! k.
Proof.
  intros Heq. unfold assign. destruct (String.eqb k "__proto__"); [done|].
  by rewrite !lookup_insert_eq.
Qed.

Lemma dom_assign k v m :
  dom (assign k v m) = ({[k]} ∖ {["__proto__"]}) ∪ dom m.
Proof.
  destruct (decide (k = "__proto__")) as [->|Hk].
  - rewrite assign_proto. set_solver.
  - rewrite assign_insert, dom_insert_L by done. set_solver.
Qed.
End Assign.

(** ** One unit of work of the check, run alone *)

Section CheckUnit.
Variable net : Network.
Implicit Types (s : Stores) (w : World).

(** A unit of work never rejects; it leaves [verdict] in the three
    records and adds [unit_log] to the log. *)
Lemma check_unit_run name cfg s w :
  run (check_unit net (name, cfg)) (s, w)
  = (Normal tt, (verdict net name cfg s, w ++ unit_log net name cfg w)).
Proof.
  pose proof (new_client_calls net name cfg w) as Hcalls.
  unfold check_unit, verdict, unit_log.
  rewrite run_try_catch, run_bind, createMCPClient_run.
  destruct (creation net name cfg) as [b|e]; [|by rewrite app_nil_r].
  destruct (Hcalls b eq_refl) as (_ & Htools & Hclose).
  rewrite run_bind, run_update, run_bind, run_try_catch, run_bind, client_tools_run.
  cbn [owner serial behaviour]. rewrite Htools, !app_assoc.
  destruct (tools_reply b 1) as [t|e1]; rewrite run_update, client_close_run;
    cbn [owner serial behaviour];
    rewrite count_event_app, Hclose, count_event_cons, count_event_nil,
      decide_False by done;
    simpl; destruct (close_reply b 0) as [[]|e2]; by rewrite <- !app_assoc.
Qed.

(** No failure escapes a unit of work: its [catch] takes them all and
    does not throw. *)
Lemma check_unit_fulfils entry : fulfils (check_unit net entry).
Proof.
  destruct entry as [name cfg]. unfold check_unit.
  apply fulfils_try_catch. intros e.
  apply fulfils_bind; [apply fulfils_update|]. intros _. apply fulfils_update.
Qed.

(** *** The verdict touches the entry of its own server only *)

(** Nothing is filed for a server named "__proto__". *)
Lemma verdict_proto cfg s : verdict net "__proto__" cfg s = s.
Proof.
  unfold verdict, set_serverStatus, set_serverErrors, set_serverTools.
  destruct s as [st er tl].
  destruct (creation net "__proto__" cfg) as [b|e];
    [destruct (tools_reply b 1), (close_reply b 0)|];
    cbn [serverStatus serverErrors serverTools]; by rewrite ?assign_proto.
Qed.

Lemma verdict_frame name cfg s other :
  name ≠ other → outcome (verdict net name cfg s) other = outcome s other.
Proof.
  intros Hne. unfold verdict, outcome.
  destruct (creation net name cfg) as [b|e];
    [destruct (tools_reply b 1), (close_reply b 0)|];
    simpl; by rewrite ?assign_lookup_ne by done.
Qed.

Lemma verdict_local name cfg s s' :
  outcome s name = outcome s' name →
  outcome (verdict net name cfg s) name = outcome (verdict net name cfg s') name.
Proof.
  destruct (decide (name = "__proto__")) as [->|Hname].
  { by rewrite !verdict_proto. }
  unfold verdict, outcome. intros [= Hstatus Herrors Htools].
  destruct (creation net name cfg) as [b|e];
    [destruct (tools_reply b 1), (close_reply b 0)|];
    simpl; rewrite ?assign_insert by done;
    by rewrite ?lookup_insert_eq, ?Hstatus, ?Herrors, ?Htools.
Qed.

Lemma stores_eq s s' : (∀ name, outcome s name = outcome s' name) → s = s'.
Proof.
  intros Heq. destruct s as [a b c], s' as [a' b' c'].
  f_equal; apply map_eq; intros name; specialize (Heq name);
    unfold outcome in Heq; simpl in Heq; congruence.
Qed.

Lemma verdicts_cons name cfg entries s :
  verdicts net ((name, cfg) :: entries) s
  = verdicts net entries (verdict net name cfg s).
Proof. reflexivity. Qed.

Lemma verdicts_app entries1 entries2 s :
  verdicts net (entries1 ++ entries2) s
  = verdicts net entries2 (verdicts net entries1 s).
Proof. apply foldl_app. Qed.

Lemma verdicts_frame entries s name :
  name ∉ entries.*1 → outcome (verdicts net entries s) name = outcome s name.
Proof.
  revert s. induction entries as [|[n c] entries IH]; intros s Hnotin; [done|].
  rewrite fmap_cons, not_elem_of_cons in Hnotin. destruct Hnotin as [Hne Hnotin].
  rewrite verdicts_cons, IH by done. by apply verdict_frame.
Qed.

(** With one entry per server name, the entry of a server is the one
    its own unit of work produces. *)
Lemma verdicts_outcome entries name cfg s :
  NoDup entries.*1 → (name, cfg) ∈ entries →
  outcome (verdicts net entries s) name = outcome (verdict net name cfg s) name.
Proof.
  intros Hnodup Hin.
  apply list_elem_of_split in Hin as (before & after & ->).
  rewrite fmap_app, fmap_cons in Hnodup.
  apply NoDup_app in Hnodup as (_ & Hbefore & Hafter).
  apply NoDup_cons in Hafter as [Hafter _].
  rewrite verdicts_app, verdicts_cons, verdicts_frame by done.
  apply verdict_local, verdicts_frame.
  intros Hin. apply (Hbefore _ Hin). left.
Qed.

(** Whatever the servers, nothing is filed under "__proto__". *)
Lemma verdicts_proto entries s :
  outcome (verdicts net entries s) "__proto__" = outcome s "__proto__".
Proof.
  revert s. induction entries as [|[n c] entries IH]; intros s; [done|].
  rewrite verdicts_cons, IH.
  destruct (decide (n = "__proto__")) as [->|Hne].
  - by rewrite verdict_proto.
  - by apply verdict_frame.
Qed.

Lemma verdict_status name cfg s :
  dom (serverStatus (verdict net name cfg s))
  = ({[name]} ∖ {["__proto__"]}) ∪ dom (serverStatus s).
Proof.
  unfold verdict.
  destruct (creation net name cfg) as [b|e];
    [destruct (tools_reply b 1), (close_reply b 0)|];
    simpl; rewrite !dom_assign; set_solver.
Qed.

Lemma verdict_errors name cfg s :
  dom (serverErrors (verdict net name cfg s))
  ⊆ ({[name]} ∖ {["__proto__"]}) ∪ dom (serverErrors s).
Proof.
  unfold verdict.
  destruct (creation net name cfg) as [b|e];
    [destruct (tools_reply b 1), (close_reply b 0)|];
    simpl; rewrite ?dom_assign; set_solver.
Qed.

Lemma verdict_tools name cfg s :
  dom (serverTools (verdict net name cfg s))
  ⊆ ({[name]} ∖ {["__proto__"]}) ∪ dom (serverTools s).
Proof.
  unfold verdict.
  destruct (creation net name cfg) as [b|e];
    [destruct (tools_reply b 1), (close_reply b 0)|];
    simpl; rewrite ?dom_assign; set_solver.
Qed.

Lemma verdicts_status entries s :
  dom (serverStatus (verdicts net entries s))
  = (list_to_set entries.*1 ∖ {["__proto__"]}) ∪ dom (serverStatus s).
Proof.
  revert s. induction entries as [|[n c] entries IH]; intros s.
  { set_solver. }
  rewrite verdicts_cons, IH, verdict_status. set_solver.
Qed.

Lemma verdicts_errors entries s :
  dom (serverErrors (verdicts net entries s))
  ⊆ (list_to_set entries.*1 ∖ {["__proto__"]}) ∪ dom (serverErrors s).
Proof.
  revert s. induction entries as [|[n c] entries IH]; intros s.
  { set_solver. }
  rewrite verdicts_cons. pose proof (IH (verdict net n c s)).
  pose proof (verdict_errors n c s). set_solver.
Qed.

Lemma verdicts_tools entries s :
  dom (serverTools (verdicts net entries s))
  ⊆ (list_to_set entries.*1 ∖ {["__proto__"]}) ∪ dom (serverTools s).
Proof.
  revert s. induction entries as [|[n c] entries IH]; intros s.
  { set_solver. }
  rewrite verdicts_cons. pose proof (IH (verdict net n c s)).
  pose proof (verdict_tools n c s). set_solver.
Qed.

Lemma verdict_accounted name cfg s : accounted s → accounted (verdict net name cfg s).
Proof.
  intros Hs other.
  destruct (decide (name = "__proto__")) as [->|Hname].
  { rewrite verdict_proto. apply Hs. }
  destruct (decide (name = other)) as [<-|Hne].
  - unfold verdict.
    destruct (creation net name cfg) as [b|e];
      [destruct (tools_reply b 1), (close_reply b 0)|];
      simpl; rewrite ?assign_insert by done;
      rewrite ?lookup_insert_eq; naive_solver.
  - pose proof (verdict_frame name cfg s other Hne) as [= -> -> _].
    apply Hs.
Qed.

Lemma verdicts_accounted entries s : accounted s → accounted (verdicts net entries s).
Proof.
  revert s. induction entries as [|[n c] entries IH]; intros s Hs; [done|].
  rewrite verdicts_cons. by apply IH, verdict_accounted.
Qed.

Lemma no_stores_accounted : accounted no_stores.
Proof. intros name. unfold no_stores; simpl. by rewrite lookup_empty. Qed.
End CheckUnit.

(** ** Tasks that mind their own server *)

Section LocalTasks.
Context {L P : Type} (proj : string → L → P).
Implicit Types (s : L * World) (server : string).

Lemma local_weaken server {A} (Q Q' : A → Prop) (t : Task L A) :
  (∀ a, Q a → Q' a) → local proj server Q t → local proj server Q' t.
Proof.
  intros HQ. induction 1 as [a Ha|e|step next Hown Hframe Hnext _ IH].
  - apply local_Normal. by apply HQ.
  - apply local_Abrupt.
  - by apply local_Yield.
Qed.

Lemma local_bind server {A B} (Q : A → Prop) (R : B → Prop)
    (t : Task L A) (k : A → Task L B) :
  local proj server Q t → (∀ a, Q a → local proj server R (k a)) →
  local proj server R (bind t k).
Proof.
  intros Ht Hk. induction Ht as [a Ha|e|step next Hown Hframe Hnext _ IH]; simpl.
  - by apply Hk.
  - apply local_Abrupt.
  - apply local_Yield; [done|done| |done].
    intros s s' Hfoot. by rewrite (Hnext s s').
Qed.

Lemma local_try_catch server {A} (Q : A → Prop)
    (body : Task L A) (handler : Thrown → Task L A) :
  local proj server Q body → (∀ e, local proj server Q (handler e)) →
  local proj server Q (try_catch body handler).
Proof.
  intros Hbody Hhandler.
  induction Hbody as [a Ha|e|step next Hown Hframe Hnext _ IH]; simpl.
  - by apply local_Normal.
  - apply Hhandler.
  - apply local_Yield; [done|done| |done].
    intros s s' Hfoot. by rewrite (Hnext s s').
Qed.

Lemma local_interact server {A} (Q : A → Prop) (events : World → list Event)
    (reply : World → Completion A) :
  (∀ w, Forall (fun e => server_of e = server) (events w)) →
  (∀ w w', view server w = view server w' →
           events w = events w' ∧ reply w = reply w') →
  (∀ w a, reply w = Normal a → Q a) →
  local proj server Q (interact events reply).
Proof.
  intros Hmine Hview HQ. apply local_Yield.
  - intros [l w] [l' w'] [= Hl Hw]. unfold foot. cbn [fst snd].
    destruct (Hview w w' Hw) as [-> _]. by rewrite !view_app, Hl, Hw.
  - intros other [l w] Hne. unfold foot. cbn [fst snd].
    by rewrite view_app, (view_other server other (events w)), app_nil_r.
  - intros [l w] [l' w'] [= _ Hw]. cbn [snd].
    by destruct (Hview w w' Hw) as [_ ->].
  - intros [l w]. cbn [snd]. destruct (reply w) as [a|e] eqn:Hreply.
    + apply local_Normal. by apply (HQ w).
    + apply local_Abrupt.
Qed.

Lemma local_update server (f : L → L) :
  (∀ l l', proj server l = proj server l' →
           proj server (f l) = proj server (f l')) →
  (∀ other l, other ≠ server → proj other (f l) = proj other l) →
  local proj server (fun _ => True) (update f).
Proof.
  intros Hown Hframe. apply local_Yield.
  - intros [l w] [l' w'] [= Hl Hw]. unfold foot. cbn [fst snd].
    by rewrite (Hown l l' Hl), Hw.
  - intros other [l w] Hne. unfold foot. cbn [fst snd]. by rewrite Hframe.
  - done.
  - intros s. by apply local_Normal.
Qed.

Lemma local_returns server {A} (Q : A → Prop) (t : Task L A) :
  local proj server Q t → returns Q t.
Proof.
  induction 1 as [a Ha|e|step next _ _ _ _ IH].
  - by apply returns_Normal.
  - apply returns_Abrupt.
  - by apply returns_Yield.
Qed.

Lemma run_returns {A} (Q : A → Prop) (t : Task L A) s a :
  returns Q t → (run t s).1 = Normal a → Q a.
Proof.
  intros Ht. revert s. induction Ht as [a' Ha|e|step next _ IH]; intros s; simpl.
  - by intros [= <-].
  - done.
  - apply IH.
Qed.

(** A local task run alone ends the same, and leaves the same for its
    server, from two states that are the same for its server. *)
Lemma run_local server {A} (Q : A → Prop) (t : Task L A) s s' :
  local proj server Q t → foot proj server s = foot proj server s' →
  (run t s).1 = (run t s').1
  ∧ foot proj server (run t s).2 = foot proj server (run t s').2.
Proof.
  intros Ht. revert s s'.
  induction Ht as [a Ha|e|step next Hown Hframe Hnext _ IH]; intros s s' Hfoot;
    [done|done|].
  simpl. rewrite (Hnext s s' Hfoot). apply IH. by apply Hown.
Qed.

(** It leaves the rest of the state as it found it. *)
Lemma run_frame server other {A} (Q : A → Prop) (t : Task L A) s :
  local proj server Q t → other ≠ server →
  foot proj other (run t s).2 = foot proj other s.
Proof.
  intros Ht Hne. revert s.
  induction Ht as [a Ha|e|step next Hown Hframe Hnext _ IH]; intros s;
    [done|done|].
  simpl. rewrite IH. by apply Hframe.
Qed.
End LocalTasks.

(** ** Interleaving *)

Section Interleaving.
Context {L P A : Type} (proj : string → L → P).
Implicit Types (names : list string) (pool : list (Task L A)) (s : L * World).

Lemma minded_lookup names pool j name t :
  minded proj names pool → names !! j = Some name → pool !! j = Some t →
  local proj name (fun _ => True) t.
Proof.
  intros Hminded Hname Ht.
  by apply (Forall2_lookup_lr _ names pool j name t Hminded).
Qed.

(** Tasks whose servers find the same in two states settle the same in
    both. *)
Lemma alone_agree names pool s1 s0 j name t :
  minded proj names pool → names !! j = Some name → pool !! j = Some t →
  foot proj name s1 = foot proj name s0 →
  (run t s1).1 = (run t s0).1
  ∧ foot proj name (run t s1).2 = foot proj name (run t s0).2.
Proof.
  intros Hminded Hname Ht Hfoot.
  eapply run_local; [|done]. by eapply minded_lookup.
Qed.

Lemma alone_results_agree names pool s1 s0 :
  minded proj names pool →
  (∀ name, name ∈ names → foot proj name s1 = foot proj name s0) →
  map (fun t => (run t s1).1) pool = map (fun t => (run t s0).1) pool.
Proof.
  intros Hminded Hfoot. apply list_eq. intros j.
  rewrite !list_lookup_fmap.
  destruct (pool !! j) as [t|] eqn:Ht; [|done]. simpl. f_equal.
  destruct (Forall2_lookup_r _ _ _ _ _ Hminded Ht) as (name & Hname & _).
  apply (alone_agree names pool _ _ j name t Hminded Hname Ht).
  apply Hfoot. by eapply list_elem_of_lookup_2.
Qed.

(** Run one after the other, the tasks of a pool settle as each does
    alone. *)
Lemma Promise_allSettled_alone names pool s0 :
  NoDup names → minded proj names pool →
  settled_as_alone proj names pool s0 (run (Promise_allSettled pool) s0).
Proof.
  intros Hnodup Hminded. revert s0 Hnodup.
  induction Hminded as [|name t names pool Hlocal Hminded IH]; intros s0 Hnodup.
  { split; [done|]. split; [intros j ?? [=]|done]. }
  apply NoDup_cons in Hnodup as [Hfresh Hnodup].
  cbn [Promise_allSettled]. rewrite run_bind, run_settle.
  destruct (run t s0) as [c s1] eqn:Ht. rewrite run_bind.
  destruct (IH s1 Hnodup) as (Hresults & Hfeet & Hrest).
  destruct (run (Promise_allSettled pool) s1) as [cs s'].
  cbn [fst snd] in *. subst cs. cbn [run ret fst snd].
  assert (∀ other, other ≠ name → foot proj other s1 = foot proj other s0)
    as Hframe.
  { intros other Hne. replace s1 with (run t s0).2 by (by rewrite Ht).
    by eapply run_frame. }
  assert (∀ other, other ∈ names → foot proj other s1 = foot proj other s0)
    as Hothers.
  { intros other Hin. apply Hframe. by intros ->. }
  split; [|split].
  - cbn [map]. rewrite Ht. cbn [fst]. f_equal. f_equal.
    by apply (alone_results_agree names).
  - intros [|j] name' t' Hname Ht'; simplify_eq/=.
    + rewrite Ht. cbn [snd]. by apply Hrest.
    + rewrite (Hfeet j name' t') by done.
      apply (alone_agree names pool _ _ j name' t' Hminded Hname Ht').
      apply Hothers. by eapply list_elem_of_lookup_2.
  - intros other Hnotin. apply not_elem_of_cons in Hnotin as [Hne Hnotin].
    rewrite Hrest by done. by apply Hframe.
Qed.

(** Whatever the schedule, the tasks of a pool settle as each does
    alone, and leave for each server what its task leaves alone. *)
Lemma interleave_alone schedule names pool s0 :
  NoDup names → minded proj names pool →
  settled_as_alone proj names pool s0 (run (interleave schedule pool) s0).
Proof.
  intros Hnodup. revert pool s0.
  induction schedule as [|i schedule IH]; intros pool s0 Hminded.
  { by apply Promise_allSettled_alone. }
  cbn [interleave].
  destruct (pool !! i) as [[c|step next]|] eqn:Hi; [by apply IH| |by apply IH].
  destruct (Forall2_lookup_r _ _ _ _ _ Hminded Hi) as (mine & Hmine & Hlocal).
  inversion Hlocal as [| |step' next' Hown Hframe Hnext Hrest]; subst.
  cbn [run].
  assert (minded proj names (<[i := next s0]> pool)) as Hminded'.
  { unfold minded. rewrite <- (list_insert_id names i mine) by done.
    by apply Forall2_insert. }
  destruct (IH (<[i := next s0]> pool) (step s0) Hminded')
    as (Hresults & Hfeet & Hothers).
  assert (∀ j name t, j ≠ i → names !! j = Some name → pool !! j = Some t →
            (run t (step s0)).1 = (run t s0).1
            ∧ foot proj name (run t (step s0)).2 = foot proj name (run t s0).2)
    as Hagree.
  { intros j name t Hne Hname Ht.
    apply (alone_agree names pool _ _ j name t Hminded Hname Ht).
    apply Hframe. intros ->. apply Hne.
    by apply (NoDup_lookup names j i mine). }
  split; [|split].
  - rewrite Hresults. f_equal. apply list_eq. intros j.
    rewrite !list_lookup_fmap.
    destruct (decide (j = i)) as [->|Hne].
    + rewrite list_lookup_insert_eq by (by eapply lookup_lt_Some).
      by rewrite Hi.
    + rewrite list_lookup_insert_ne by done.
      destruct (pool !! j) as [t|] eqn:Ht; [|done]. simpl. f_equal.
      destruct (Forall2_lookup_r _ _ _ _ _ Hminded Ht) as (name & Hname & _).
      by apply (Hagree j name t).
  - intros j name t Hname Ht.
    destruct (decide (j = i)) as [->|Hne].
    + simplify_eq. apply (Hfeet i mine (next s0)); [done|].
      apply list_lookup_insert_eq. by eapply lookup_lt_Some.
    + rewrite (Hfeet j name t); [by apply (Hagree j name t)|done|].
      by rewrite list_lookup_insert_ne.
  - intros other Hnotin. rewrite Hothers by done. apply Hframe.
    intros ->. apply Hnotin. by eapply list_elem_of_lookup_2.
Qed.
End Interleaving.

(** ** The code minds its own server *)

Section CodeIsLocal.
Variable net : Network.
Context {L P : Type} (proj : string → L → P).

Lemma local_client_tools (client : MCPClient) :
  local proj (owner client) (fun _ => True) (client_tools (L := L) client).
Proof.
  apply local_interact; [by repeat constructor| |done].
  intros w w' Hview. split; [done|].
  rewrite (count_event_view _ w), (count_event_view _ w'). simpl.
  by rewrite Hview.
Qed.

Lemma local_client_close (client : MCPClient) :
  local proj (owner client) (fun _ => True) (client_close (L := L) client).
Proof.
  apply local_interact; [by repeat constructor| |done].
  intros w w' Hview. split; [done|].
  rewrite (count_event_view _ w), (count_event_view _ w'). simpl.
  by rewrite Hview.
Qed.

Lemma local_connect name t :
  local proj name (fun client => owner client = name) (connect (L := L) net name t).
Proof.
  apply local_interact.
  - intros w. destruct (experimental_createMCPClient net name t);
      by repeat constructor.
  - intros w w' Hview. unfold fresh_serial. by rewrite Hview.
  - intros w client.
    destruct (experimental_createMCPClient net name t); by intros [= <-].
Qed.

Lemma local_createMCPClient name cfg :
  local proj name (fun r => ∃ client, r = Some client ∧ owner client = name)
    (createMCPClient (L := L) net name cfg).
Proof.
  unfold createMCPClient. destruct cfg as [c|]; [|apply local_Abrupt].
  destruct (isSSE c && negb (truthy (url c))); [apply local_Abrupt|].
  destruct (negb (isSSE c) && negb (truthy (command c))); [apply local_Abrupt|].
  apply (local_bind proj name (fun client => owner client = name)).
  - destruct (isSSE c); (apply local_try_catch; [apply local_connect|]);
      intros e; apply local_Abrupt.
  - intros client Howner. apply local_try_catch; [|intros e; apply local_Abrupt].
    apply (local_bind proj name (fun _ => True)).
    + rewrite <- Howner. apply local_client_tools.
    + intros _ _. apply local_Normal. by exists client.
Qed.
End CodeIsLocal.

Section CheckIsLocal.
Variable net : Network.

Lemma local_set_serverStatus name v :
  local entry_of name (fun _ => True) (update (set_serverStatus name v)).
Proof.
  apply local_update; unfold entry_of, outcome; simpl.
  - intros l l' [= Hstatus -> ->]. by rewrite (assign_lookup_local _ _ _ _ Hstatus).
  - intros other l Hne. by rewrite assign_lookup_ne.
Qed.

Lemma local_set_serverErrors name v :
  local entry_of name (fun _ => True) (update (set_serverErrors name v)).
Proof.
  apply local_update; unfold entry_of, outcome; simpl.
  - intros l l' [= -> Herrors ->]. by rewrite (assign_lookup_local _ _ _ _ Herrors).
  - intros other l Hne. by rewrite assign_lookup_ne.
Qed.

Lemma local_set_serverTools name v :
  local entry_of name (fun _ => True) (update (set_serverTools name v)).
Proof.
  apply local_update; unfold entry_of, outcome; simpl.
  - intros l l' [= -> -> Htools]. by rewrite (assign_lookup_local _ _ _ _ Htools).
  - intros other l Hne. by rewrite assign_lookup_ne.
Qed.

(** A unit of work of the check reads and writes nothing but what
    belongs to its server. *)
Lemma local_check_unit name cfg :
  local entry_of name (fun _ => True) (check_unit net (name, cfg)).
Proof.
  unfold check_unit. apply local_try_catch.
  - eapply local_bind; [apply local_createMCPClient|].
    intros r (client & -> & Howner).
    eapply local_bind; [apply local_set_serverStatus|]. intros _ _.
    eapply local_bind.
    + apply local_try_catch.
      * eapply local_bind; [rewrite <- Howner; apply local_client_tools|].
        intros tools _. apply local_set_serverTools.
      * intros e. apply local_set_serverErrors.
    + intros _ _. rewrite <- Howner. apply local_client_close.
  - intros e. eapply local_bind; [apply local_set_serverStatus|]. intros _ _.
    apply local_set_serverErrors.
Qed.

Lemma check_units_minded (entries : list (string * option ServerConfig)) :
  minded entry_of entries.*1 (map (check_unit net) entries).
Proof.
  unfold minded. induction entries as [|[name cfg] entries IH]; [constructor|].
  constructor; [apply local_check_unit|done].
Qed.

Lemma first_rejection_none {A B} (l : list B) (a : A) :
  first_rejection (map (fun _ => Normal a) l) = Normal (map (fun _ => a) l).
Proof. induction l as [|x l IH]; simpl; by rewrite ?IH. Qed.

(** Whatever the schedule, no unit of work rejects, [Promise.all] is
    fulfilled, and the three records hold what the units of work write
    when they run one after the other. *)
Lemma Promise_all_units schedule (entries : list (string * option ServerConfig))
    (s : Stores) (w : World) :
  NoDup entries.*1 →
  ∃ w', run (Promise_all schedule (map (check_unit net) entries)) (s, w)
        = (Normal (map (fun _ => tt) entries), (verdicts net entries s, w')).
Proof.
  intros Hnodup. unfold Promise_all. rewrite run_bind.
  destruct (interleave_alone entry_of schedule entries.*1
              (map (check_unit net) entries) (s, w) Hnodup
              (check_units_minded entries)) as (Hresults & Hfeet & Hothers).
  destruct (run (interleave schedule (map (check_unit net) entries)) (s, w))
    as [r [s' w']].
  cbn [fst snd] in *. subst r.
  rewrite map_map.
  rewrite (map_ext _ (fun _ => Normal tt))
    by (intros [name cfg]; by rewrite check_unit_run).
  cbn [run]. rewrite first_rejection_none.
  exists w'. f_equal. f_equal. apply stores_eq. intros name.
  destruct (decide (name ∈ entries.*1)) as [Hin|Hnotin].
  - apply list_elem_of_lookup in Hin as [j Hj].
    rewrite list_lookup_fmap in Hj.
    destruct (entries !! j) as [[name' cfg]|] eqn:Hentry; [|done].
    injection Hj as <-.
    specialize (Hfeet j name' (check_unit net (name', cfg))).
    rewrite list_lookup_fmap, Hentry in Hfeet.
    rewrite list_lookup_fmap, Hentry in Hfeet.
    specialize (Hfeet eq_refl eq_refl).
    rewrite check_unit_run in Hfeet.
    apply (f_equal fst) in Hfeet. unfold foot, entry_of in Hfeet.
    cbn [fst snd] in Hfeet. rewrite Hfeet.
    symmetry. apply verdicts_outcome; [done|].
    by eapply list_elem_of_lookup_2.
  - specialize (Hothers name Hnotin).
    apply (f_equal fst) in Hothers. unfold foot, entry_of in Hothers.
    cbn [fst snd] in Hothers. rewrite Hothers.
    symmetry. by apply verdicts_frame.
Qed.

(** Whatever the schedule, the log holds about each server what the
    unit of work of that server logs when it runs alone. *)
Lemma Promise_all_views schedule (entries : list (string * option ServerConfig))
    (s : Stores) (w : World) name cfg :
  NoDup entries.*1 → (name, cfg) ∈ entries →
  view name (run (Promise_all schedule (map (check_unit net) entries)) (s, w)).2.2
  = view name (w ++ unit_log net name cfg w).
Proof.
  intros Hnodup Hin. unfold Promise_all. rewrite run_bind.
  destruct (interleave_alone entry_of schedule entries.*1
              (map (check_unit net) entries) (s, w) Hnodup
              (check_units_minded entries)) as (Hresults & Hfeet & _).
  destruct (run (interleave schedule (map (check_unit net) entries)) (s, w))
    as [r [s' w']].
  cbn [fst snd] in *. subst r. cbn [run snd].
  apply list_elem_of_lookup in Hin as [j Hj].
  specialize (Hfeet j name (check_unit net (name, cfg))).
  rewrite !list_lookup_fmap, Hj in Hfeet. specialize (Hfeet eq_refl eq_refl).
  rewrite check_unit_run in Hfeet.
  by apply (f_equal snd) in Hfeet.
Qed.
End CheckIsLocal.

(** ** The whole check *)

Section CheckAll.
Variable net : Network.
Implicit Types (s : Stores) (w : World) (schedule : list nat).

Lemma imap_fst {A B} (f : nat → A) (l : list B) :
  (imap (fun i x => (f i, x)) l).*1 = f <$> seq 0 (length l).
Proof.
  revert f. induction l as [|x l IH]; intros f; [done|].
  cbn [imap length seq fmap list_fmap]. f_equal.
  rewrite <- fmap_S_seq, <- list_fmap_compose. apply (IH (f ∘ S)).
Qed.

(** No name occurs twice among the entries of [mcpServers]. *)
Lemma Object_entries_NoDup (v : JSValue) : NoDup (Object_entries v).*1.
Proof.
  destruct v; try apply NoDup_nil_2.
  - simpl. rewrite imap_fst. apply (NoDup_fmap_2 _), NoDup_seq.
  - apply NoDup_fst_map_to_list.
Qed.

Lemma guard_is_object v :
  negb (js_truthy v) || negb (String.eqb (typeof v) "object") = negb (is_object v).
Proof. destruct v; simpl; by rewrite ?orb_true_r. Qed.

Lemma action_run_object schedule v w :
  is_object v = true →
  ∃ w', action net schedule (Normal (ObjectBody v)) w
        = (Normal {| status := 200;
                     json := CheckJson (verdicts net (Object_entries v) no_stores) |},
           w').
Proof.
  intros Hobj. unfold action, action_body.
  rewrite run_try_catch. cbn [bind].
  rewrite guard_is_object, Hobj. cbn [negb]. rewrite run_bind.
  destruct (Promise_all_units net schedule (Object_entries v) no_stores w
              (Object_entries_NoDup v)) as [w' ->].
  by eexists.
Qed.

Lemma action_view schedule v w name cfg :
  is_object v = true → (name, cfg) ∈ Object_entries v →
  view name (action net schedule (Normal (ObjectBody v)) w).2
  = view name (w ++ unit_log net name cfg w).
Proof.
  intros Hobj Hin.
  pose proof (Promise_all_views net schedule (Object_entries v) no_stores w
                name cfg (Object_entries_NoDup v) Hin) as Hview.
  unfold action, action_body.
  rewrite run_try_catch. cbn [bind].
  rewrite guard_is_object, Hobj. cbn [negb]. rewrite run_bind.
  destruct (Promise_all_units net schedule (Object_entries v) no_stores w
              (Object_entries_NoDup v)) as [w' Hrun].
  rewrite Hrun in Hview |- *. done.
Qed.

Lemma action_run_other schedule v w :
  is_object v = false →
  action net schedule (Normal (ObjectBody v)) w
  = (Normal {| status := 400; json := ErrorJson "Invalid MCP servers configuration" |},
     w).
Proof.
  intros Hobj. unfold action, action_body.
  rewrite run_try_catch. cbn [bind].
  by rewrite guard_is_object, Hobj.
Qed.

(** The order in which the entries are listed does not matter. *)
Lemma verdict_commute n1 c1 n2 c2 s :
  n1 ≠ n2 →
  verdict net n1 c1 (verdict net n2 c2 s) = verdict net n2 c2 (verdict net n1 c1 s).
Proof.
  intros Hne. apply stores_eq. intros name.
  destruct (decide (name = n1)) as [->|H1]; [|destruct (decide (name = n2)) as [->|H2]].
  - rewrite (verdict_frame net n2 c2 (verdict net n1 c1 s)) by done.
    apply verdict_local. by rewrite verdict_frame.
  - rewrite (verdict_frame net n1 c1 (verdict net n2 c2 s)) by done.
    apply verdict_local. by rewrite verdict_frame.
  - by rewrite !verdict_frame.
Qed.

Lemma verdicts_permutation (entries entries' : list (string * option ServerConfig)) s :
  NoDup entries.*1 → entries ≡ₚ entries' →
  verdicts net entries s = verdicts net entries' s.
Proof.
  intros Hnodup Hperm. revert s.
  induction Hperm as [|[n c] l l' Hperm IH|[n1 c1] [n2 c2] l|l1 l2 l3 H12 IH12 H23 IH23];
    intros s.
  - done.
  - rewrite !verdicts_cons. apply IH.
    rewrite fmap_cons in Hnodup. by apply NoDup_cons in Hnodup as [_ ?].
  - rewrite !verdicts_cons. f_equal. apply verdict_commute.
    rewrite !fmap_cons in Hnodup. apply NoDup_cons in Hnodup as [Hnotin _].
    intros ->. apply Hnotin. left.
  - rewrite IH12 by done. apply IH23. by rewrite <- H12.
Qed.
End CheckAll.

(** ** The check never fails for a server's sake *)

Local Ltac error_response :=
  split; [split; [done|intros (? & ? & ?); simplify_eq; congruence]|];
  split; [intros _; split; [lia|by eexists]|];
  split; [done|];
  intros ? ? ?; simplify_eq; congruence.

Lemma names_but_proto (names : list string) :
  NoDup names →
  size (list_to_set (C := gset string) names ∖ {["__proto__"]})
  = length (filter (fun name => name ≠ "__proto__") names).
Proof.
  intros Hnodup.
  rewrite <- (size_list_to_set (C := gset string)) by by apply NoDup_filter.
  f_equal. apply set_eq. intros name.
  rewrite elem_of_difference, !elem_of_list_to_set, list_elem_of_filter.
  set_solver.
Qed.

(** What the unit of work of a server not named "__proto__" files,
    as the end of [createMCPClient] and the answers of the client
    tell. *)
Lemma verdict_outcome (net : Network) name cfg s :
  name ≠ "__proto__" →
  outcome (verdict net name cfg s) name
  = match creation net name cfg with
    | Abrupt e => (Some false, Some (errorToString e), serverTools s !! name)
    | Normal b =>
        (Some (succeeded (close_reply b 0)),
         match close_reply b 0, tools_reply b 1 with
         | Abrupt e, _ => Some (errorToString e)
         | Normal _, Abrupt e =>
             Some ("Connected but failed to get tools: " +:+ errorToString e)
         | Normal _, Normal _ => serverErrors s !! name
         end,
         match tools_reply b 1 with
         | Normal t => Some t
         | Abrupt _ => serverTools s !! name
         end)
    end.
Proof.
  intros Hname. unfold verdict, outcome.
  destruct (creation net name cfg) as [b|e];
    [destruct (tools_reply b 1), (close_reply b 0)|];
    simpl; rewrite ?assign_insert by done;
    by rewrite ?lookup_insert_eq.
Qed.

(** X30. Whatever the servers answer and however the units of work
    interleave, the check never rejects.  It answers 200 with the three
    records exactly when [mcpServers] is present and is an object (an
    array is one, [null] is not), and an error response, 400 or 500,
    otherwise.  No unit of work can end in a rejection.  The status
    record holds the names of the servers, except "__proto__", and
    nothing else; errors and tools are filed under names that have a
    status, and a server reported unreachable has its error.  For a
    server that is not named "__proto__": when [createMCPClient] throws,
    the server is filed with status [false], the message of what was
    thrown and no tools; when it returns a client, the entry is as the
    second [tools()] call and [close()] of that client answer; either
    way it is the entry that the server gets when it is checked
    alone. *)
Theorem action_isolates_failures (net : Network) (schedule : list nat)
    (request_json : Completion Body) (w : World) :
  ∃ response w',
    action net schedule request_json w = (Normal response, w')
    ∧ (status response = 200
       ↔ ∃ v, request_json = Normal (ObjectBody v) ∧ is_object v = true)
    ∧ (status response ≠ 200 →
       400 ≤ status response ∧ ∃ message, json response = ErrorJson message)
    ∧ (∀ entry, fulfils (check_unit net entry))
    ∧ ∀ v, request_json = Normal (ObjectBody v) → is_object v = true →
        ∃ result,
          json response = CheckJson result
          ∧ dom (serverStatus result)
            = list_to_set (Object_entries v).*1 ∖ {["__proto__"]}
          ∧ size (serverStatus result)
            = length (filter (fun name => name ≠ "__proto__") (Object_entries v).*1)
          ∧ dom (serverErrors result) ⊆ dom (serverStatus result)
          ∧ dom (serverTools result) ⊆ dom (serverStatus result)
          ∧ accounted result
          ∧ ∀ name cfg,
              (name, cfg) ∈ Object_entries v → name ≠ "__proto__" →
              (∀ e w0 s1,
                 run (createMCPClient net name cfg) (no_stores, w0) = (Abrupt e, s1) →
                 outcome result name = (Some false, Some (errorToString e), None))
              ∧ (∀ client w0 s1,
                   run (createMCPClient net name cfg) (no_stores, w0)
                   = (Normal (Some client), s1) →
                   outcome result name
                   = (Some (succeeded (close_reply (behaviour client) 0)),
                      match close_reply (behaviour client) 0,
                            tools_reply (behaviour client) 1 with
                      | Abrupt e, _ => Some (errorToString e)
                      | Normal _, Abrupt e =>
                          Some ("Connected but failed to get tools: "
                                  +:+ errorToString e)
                      | Normal _, Normal _ => None
                      end,
                      match tools_reply (behaviour client) 1 with
                      | Normal t => Some t
                      | Abrupt _ => None
                      end))
              ∧ ∃ alone w2,
                  action net [] (Normal (ObjectBody (JSObject {[name := cfg]}))) w
                  = (Normal {| status := 200; json := CheckJson alone |}, w2)
                  ∧ outcome result name = outcome alone name.
Proof.
  pose proof (check_unit_fulfils net) as Hunits.
  destruct request_json as [[|v]|e].
  - (* the body is null: destructuring throws, the outer catch answers *)
    eexists _, _. split; [reflexivity|]. simpl. error_response.
  - destruct (is_object v) eqn:Hobj.
    + destruct (action_run_object net schedule v w Hobj) as [w' ->].
      eexists _, _. split; [reflexivity|]. simpl.
      split; [naive_solver|]. split; [done|]. split; [done|].
      intros v' [= <-] _. eexists. split; [reflexivity|].
      assert (dom (serverStatus (verdicts net (Object_entries v) no_stores))
              = list_to_set (Object_entries v).*1 ∖ {["__proto__"]}) as Hdom.
      { rewrite verdicts_status. set_solver. }
      split; [done|].
      split; [by rewrite <- size_dom, Hdom, names_but_proto
                by apply Object_entries_NoDup|].
      rewrite Hdom.
      split; [pose proof (verdicts_errors net (Object_entries v) no_stores);
              set_solver|].
      split; [pose proof (verdicts_tools net (Object_entries v) no_stores);
              set_solver|].
      split; [apply verdicts_accounted, no_stores_accounted|].
      intros name cfg Hin Hname.
      rewrite (verdicts_outcome net _ name cfg)
        by (apply Object_entries_NoDup || done).
      rewrite verdict_outcome by done.
      split; [|split].
      * intros e w0 s1. rewrite createMCPClient_run.
        destruct (creation net name cfg); [done|]. by intros [= <- _].
      * intros client w0 s1. rewrite createMCPClient_run.
        destruct (creation net name cfg) as [b|]; [|done].
        intros [= <- _]. cbn [behaviour].
        by destruct (close_reply b 0), (tools_reply b 1).
      * destruct (action_run_object net [] (JSObject {[name := cfg]}) w eq_refl)
          as [w2 ->].
        eexists _, _. split; [reflexivity|].
        cbn [Object_entries]. rewrite map_to_list_singleton.
        rewrite (verdicts_outcome net [_] name cfg)
          by (by apply NoDup_singleton || by left).
        by rewrite verdict_outcome.
    + rewrite action_run_other by done.
      eexists _, _. split; [reflexivity|]. simpl. error_response.
  - (* request.json() rejects *)
    eexists _, _. split; [reflexivity|]. simpl. error_response.
Qed.

Lemma action_isolates_failures_witness :
  ∃ result w',
    action Sample.net [1; 0; 0; 1; 1]
      (Sample.request
         [("git", Some (Sample.stdio "mcp-server-git"));
          ("mute", Some (Sample.stdio "m"))]) []
    = (Normal {| status := 200; json := CheckJson result |}, w')
    ∧ outcome result "mute"
      = (Some false,
         Some "Server connection established but failed to get available tools: Method not found",
         None).
Proof.
  destruct (action_isolates_failures Sample.net [1; 0; 0; 1; 1]
              (Sample.request
                 [("git", Some (Sample.stdio "mcp-server-git"));
                  ("mute", Some (Sample.stdio "m"))]) [])
    as (response & w' & Hrun & _ & _ & _ & Hrecords).
  destruct (Hrecords _ eq_refl eq_refl)
    as (result & Hjson & _ & _ & _ & _ & _ & Hentries).
  destruct (Hentries "mute" (Some (Sample.stdio "m"))) as (Hthrown & _ & _).
  - apply elem_of_map_to_list. reflexivity.
  - discriminate.
  - exists result, w'. split.
    + rewrite Hrun. destruct response as [st js]. simpl in Hjson. subst js.
      vm_compute in Hrun. injection Hrun as <- _ _. reflexivity.
    + apply (Hthrown (ErrorObject "Server connection established but failed to get available tools: Method not found") [] (no_stores, [Attempt "mute" (StdioTransport (Some "m") None None None); Created "mute" 0; ToolsCalled "mute" 0])).
      reflexivity.
Defined.

(** C1 fails on the code for a server named "__proto__".  The
    subprocess of the server cannot be started, [createMCPClient]
    throws, and the unit of work files status [false] and the message
    under "__proto__", which adds no property: the check answers 200
    with three empty records, and the problem of the server appears
    nowhere. *)
Theorem proto_server_problem_is_lost :
  run (createMCPClient Sample.net "__proto__" (Some (Sample.stdio "d")))
    (no_stores, [])
  = (Abrupt (ErrorObject
       ("Failed to start command " +:+ dq +:+ "d" +:+ dq +:+ ": connection refused")),
     (no_stores, [Attempt "__proto__" (StdioTransport (Some "d") None None None)]))
  ∧ action Sample.net []
      (Sample.request [("__proto__", Some (Sample.stdio "d"))]) []
    = (Normal {| status := 200; json := CheckJson no_stores |},
       [Attempt "__proto__" (StdioTransport (Some "d") None None None)]).
Proof. split; reflexivity. Qed.

(** C6 fails on the code for a server named "__proto__": of the two
    servers of the mapping, the status record has the one that is not
    named so, and no entry for the other. *)
Theorem proto_server_is_not_counted :
  length (Object_entries
            (JSObject (list_to_map
               [("git", Some (Sample.stdio "mcp-server-git"));
                ("__proto__", Some (Sample.stdio "d"))]))) = 2
  ∧ serverStatus
      (Sample.result_of
         (action Sample.net []
            (Sample.request
               [("git", Some (Sample.stdio "mcp-server-git"));
                ("__proto__", Some (Sample.stdio "d"))]) []))
    = {[ "git" := true ]}
  ∧ size
      (serverStatus
         (Sample.result_of
            (action Sample.net []
               (Sample.request
                  [("git", Some (Sample.stdio "mcp-server-git"));
                   ("__proto__", Some (Sample.stdio "d"))]) [])))
    = 1.
Proof. split; [|split]; by vm_compute. Qed.

(** ** Client creation *)

(** C10. [createMCPClient] throws or returns a client; it never returns
    [null], in whatever state it takes its steps, so the branch of the
    check that files "Failed to create client" is never taken. *)
Theorem createMCPClient_never_null (net : Network) {L : Type} (serverName : string)
    (serverConfig : option ServerConfig) (l : L) (w : World) :
  returns (fun r => r ≠ None) (createMCPClient (L := L) net serverName serverConfig)
  ∧ ((∃ e w', run (createMCPClient net serverName serverConfig) (l, w)
              = (Abrupt e, (l, w')))
     ∨ (∃ client w',
          run (createMCPClient net serverName serverConfig) (l, w)
          = (Normal (Some client), (l, w')))).
Proof.
  split.
  - apply (local_returns (fun _ _ => tt) serverName).
    eapply local_weaken; [|apply local_createMCPClient].
    by intros r (client & -> & _).
  - rewrite createMCPClient_run.
    destruct (creation net serverName serverConfig) as [b|e]; eauto.
Qed.

(** A configuration that selects the event stream and has no URL,
    or selects the subprocess and has no command, makes
    [createMCPClient] throw its "Missing ..." error with the log
    untouched: no transport was asked for.  The unit of work of the
    check catches the error and files it; the check answers 200, its
    log holds nothing more about that server than before, and unless
    the server is named "__proto__" its entry is: status [false], the
    message, no tools. *)
Theorem invalid_spec_rejected_before_connecting (net : Network)
    (serverName : string) (c : ServerConfig) (s : Stores) (w : World) :
  (isSSE c = true ∧ truthy (url c) = false)
  ∨ (isSSE c = false ∧ truthy (command c) = false) →
  ∃ message,
    message =
      (if isSSE c
       then "Missing URL for SSE server " +:+ dq +:+ serverName +:+ dq
       else "Missing command for stdio server " +:+ dq +:+ serverName +:+ dq)
    ∧ run (createMCPClient net serverName (Some c)) (s, w)
      = (Abrupt (ErrorObject message), (s, w))
    ∧ run (check_unit net (serverName, Some c)) (s, w)
      = (Normal tt,
         (set_serverErrors serverName message (set_serverStatus serverName false s),
          w))
    ∧ ∀ schedule v,
        is_object v = true → (serverName, Some c) ∈ Object_entries v →
        ∃ result w',
          action net schedule (Normal (ObjectBody v)) w
          = (Normal {| status := 200; json := CheckJson result |}, w')
          ∧ (serverName ≠ "__proto__" →
             outcome result serverName = (Some false, Some message, None))
          ∧ view serverName w' = view serverName w.
Proof.
  intros Hinvalid. eexists. split; [reflexivity|].
  set (message :=
         if isSSE c
         then "Missing URL for SSE server " +:+ dq +:+ serverName +:+ dq
         else "Missing command for stdio server " +:+ dq +:+ serverName +:+ dq).
  assert (refusal serverName c = Some message) as Hrefused.
  { unfold refusal, message. by destruct Hinvalid as [[-> ->]|[-> ->]]. }
  assert (createMCPClient (L := Stores) net serverName (Some c)
          = throw (ErrorObject message)) as Hcreate.
  { unfold createMCPClient, message.
    destruct Hinvalid as [[-> ->]|[-> ->]]; reflexivity. }
  split; [by rewrite Hcreate|].
  split; [unfold check_unit; by rewrite Hcreate|].
  intros schedule v Hobj Hin.
  pose proof (action_view net schedule v w serverName (Some c) Hobj Hin) as Hview.
  destruct (action_run_object net schedule v w Hobj) as [w' Hrun].
  rewrite Hrun in Hview. cbn [snd] in Hview.
  eexists _, _. split; [exact Hrun|]. split.
  - intros Hname.
    rewrite (verdicts_outcome net _ serverName (Some c))
      by (apply Object_entries_NoDup || done).
    rewrite verdict_outcome by done. unfold creation. by rewrite Hrefused.
  - rewrite Hview. unfold unit_log, creation_log, creation. rewrite Hrefused.
    by rewrite !app_nil_r.
Qed.

Lemma invalid_spec_rejected_before_connecting_witness :
  run (createMCPClient Sample.net "remote" (Some (Sample.sse None))) (no_stores, [])
  = (Abrupt (ErrorObject ("Missing URL for SSE server " +:+ dq +:+ "remote" +:+ dq)),
     (no_stores, []))
  ∧ ∃ result w',
      action Sample.net [1; 0]
        (Sample.request
           [("git", Some (Sample.stdio "mcp-server-git"));
            ("remote", Some (Sample.sse None))]) []
      = (Normal {| status := 200; json := CheckJson result |}, w')
      ∧ outcome result "remote"
        = (Some false,
           Some ("Missing URL for SSE server " +:+ dq +:+ "remote" +:+ dq), None)
      ∧ view "remote" w' = [].
Proof.
  destruct (invalid_spec_rejected_before_connecting Sample.net "remote"
              (Sample.sse None) no_stores [])
    as (message & -> & Hcreate & _ & Hcheck).
  - left. split; reflexivity.
  - split; [exact Hcreate|].
    destruct (Hcheck [1; 0]
                (JSObject
                   (list_to_map
                      [("git", Some (Sample.stdio "mcp-server-git"));
                       ("remote", Some (Sample.sse None))])))
      as (result & w' & Hrun & Hentry & Hview).
    + reflexivity.
    + apply elem_of_map_to_list. reflexivity.
    + exists result, w'. split; [exact Hrun|]. split; [|exact Hview].
      apply Hentry. discriminate.
Defined.

(** C8 fails on the code for a server named "__proto__" in the
    check: [createMCPClient] throws "Missing URL for SSE server ..."
    before any transport is asked for, and the check, which files the
    error under "__proto__", answers with three empty records: the
    failure is not surfaced as the outcome of the server. *)
Theorem proto_invalid_spec_is_not_surfaced :
  run (createMCPClient Sample.net "__proto__" (Some (Sample.sse None)))
    (no_stores, [])
  = (Abrupt (ErrorObject
       ("Missing URL for SSE server " +:+ dq +:+ "__proto__" +:+ dq)),
     (no_stores, []))
  ∧ action Sample.net []
      (Sample.request [("__proto__", Some (Sample.sse None))]) []
    = (Normal {| status := 200; json := CheckJson no_stores |}, []).
Proof. split; reflexivity. Qed.

(** C9. The event stream is selected exactly when [type] is "sse", or
    [command] is absent and [url] is present (absent: [undefined] or the
    empty string, which [!] does not tell apart).  An accepted
    configuration asks for the transport of the selected kind first.  A
    configuration with both [command] and [url] and another [type] asks
    for the subprocess transport; one with neither [command] nor [url]
    and another [type] is refused as a subprocess without command. *)
Theorem transport_kind_selection (net : Network) {L : Type} (serverName : string)
    (c : ServerConfig) (l : L) (w : World) :
  (isSSE c = true
   ↔ type c = Some "sse" ∨ (truthy (command c) = false ∧ truthy (url c) = true))
  ∧ (refusal serverName c = None →
     ∃ r rest,
       run (createMCPClient net serverName (Some c)) (l, w)
       = (r, (l, w ++ Attempt serverName
                        (if isSSE c then SSETransport (url c)
                         else StdioTransport (command c) (args c) (env c) (cwd c))
                      :: rest)))
  ∧ (truthy (command c) = true → truthy (url c) = true → type c ≠ Some "sse" →
     ∃ r rest,
       run (createMCPClient net serverName (Some c)) (l, w)
       = (r, (l, w ++ Attempt serverName
                        (StdioTransport (command c) (args c) (env c) (cwd c))
                      :: rest)))
  ∧ (truthy (command c) = false → truthy (url c) = false → type c ≠ Some "sse" →
     run (createMCPClient net serverName (Some c)) (l, w)
     = (Abrupt (ErrorObject
          ("Missing command for stdio server " +:+ dq +:+ serverName +:+ dq)),
        (l, w))).
Proof.
  assert (isSSE c = true
    ↔ type c = Some "sse" ∨ (truthy (command c) = false ∧ truthy (url c) = true))
    as Hkind.
  { unfold isSSE. rewrite orb_true_iff, andb_true_iff, negb_true_iff.
    by rewrite bool_decide_eq_true. }
  assert (refusal serverName c = None →
     ∃ r rest,
       run (createMCPClient net serverName (Some c)) (l, w)
       = (r, (l, w ++ Attempt serverName (request_of c) :: rest))) as Hfirst.
  { intros Haccepted. rewrite createMCPClient_run.
    unfold creation_log. rewrite Haccepted. cbv zeta.
    destruct (experimental_createMCPClient net serverName (request_of c));
      by eexists _, _. }
  split; [exact Hkind|]. split; [exact Hfirst|]. split.
  - intros Hcommand Hurl Htype.
    assert (isSSE c = false) as Hstdio.
    { apply not_true_is_false. rewrite Hkind. intros [?|[? _]]; congruence. }
    destruct Hfirst as (r & rest & Hrun).
    { unfold refusal. by rewrite Hstdio, Hcommand. }
    unfold request_of in Hrun. rewrite Hstdio in Hrun. eauto.
  - intros Hcommand Hurl Htype.
    assert (isSSE c = false) as Hstdio.
    { apply not_true_is_false. rewrite Hkind. intros [?|[_ ?]]; congruence. }
    unfold createMCPClient. by rewrite Hstdio, Hcommand.
Qed.

Lemma transport_kind_selection_witness :
  (∃ r rest,
     run (createMCPClient Sample.net "both" (Some Sample.both)) (tt, [])
     = (r, (tt, [] ++ Attempt "both" (StdioTransport (Some "npx") None None None)
                    :: rest)))
  ∧ run (createMCPClient Sample.net "neither" (Some Sample.neither)) (tt, [])
    = (Abrupt (ErrorObject
         ("Missing command for stdio server " +:+ dq +:+ "neither" +:+ dq)),
       (tt, [])).
Proof.
  split.
  - destruct (transport_kind_selection Sample.net "both" Sample.both tt [])
      as (_ & _ & Hboth & _).
    apply Hboth; [reflexivity|reflexivity|discriminate].
  - destruct (transport_kind_selection Sample.net "neither" Sample.neither tt [])
      as (_ & _ & _ & Hneither).
    apply Hneither; [reflexivity|reflexivity|discriminate].
Defined.

(** ** Aggregation of the tools *)

Section Aggregating.
Variable net : Network.
Implicit Types (a : Aggregate) (w : World)
  (servers : list (string * option ServerConfig)).

(** The body of the loop never throws past its [catch]. *)
Lemma init_server_run name cfg a w :
  run (init_server net (name, cfg)) (a, w)
  = (Normal tt, (harvest net name cfg w a, w ++ init_log net name cfg w)).
Proof.
  pose proof (new_client_calls net name cfg w) as Hcalls.
  unfold init_server, harvest, init_log.
  rewrite run_try_catch, run_bind, createMCPClient_run.
  destruct (creation net name cfg) as [b|e]; [|by rewrite app_nil_r].
  destruct (Hcalls b eq_refl) as (_ & Htools & _).
  rewrite run_bind, run_update, run_bind, client_tools_run.
  cbn [owner serial behaviour]. rewrite Htools, !app_assoc.
  by destruct (tools_reply b 1) as [t|e1].
Qed.




End Aggregating.



(** ** A probe that fails after the connection was established *)

Section Probe.
Variable net : Network.

Lemma creation_probe_failed name c b e :
  established net name c b → tools_reply b 0 = Abrupt e →
  creation net name (Some c) = Abrupt (ErrorObject (probe_failure e)).
Proof.
  intros [Haccepted Hconnect] Hprobe. unfold creation.
  by rewrite Haccepted, Hconnect, Hprobe.
Qed.

Lemma creation_probe_passed name c b t :
  established net name c b → tools_reply b 0 = Normal t →
  creation net name (Some c) = Normal b.
Proof.
  intros [Haccepted Hconnect] Hprobe. unfold creation.
  by rewrite Haccepted, Hconnect, Hprobe.
Qed.
End Probe.

(** C2, as stated, fails: a server that accepts the connection and
    fails every [tools()] is reported with status [false]. *)
Lemma probe_failure_reported_unreachable :
  established Sample.net "mute" (Sample.stdio "m") Sample.mute
  ∧ (∀ k, tools_reply Sample.mute k = Abrupt (ErrorObject "Method not found"))
  ∧ outcome
      (Sample.result_of
         (action Sample.net []
            (Sample.request [("mute", Some (Sample.stdio "m"))]) []))
      "mute"
    = (Some false,
       Some "Server connection established but failed to get available tools: Method not found",
       None).
Proof. split; [by split|]. split; [done|]. reflexivity. Qed.

(** C2, amended.  For a server, not named "__proto__", whose connection
    is established: when the [tools()] call that [createMCPClient] makes
    fails, the server is filed with status [false], the error "Server
    connection established but failed to get available tools: ..." and
    no tools; when that call succeeds, the next [tools()] call, made by
    the check itself, fails and [close()] succeeds, the server is filed
    with status [true], the error "Connected but failed to get tools:
    ..." and no tools. *)
Theorem probe_failure_outcome (net : Network) (schedule : list nat) (v : JSValue)
    (serverName : string) (c : ServerConfig) (b : Behaviour) (e : Thrown)
    (w : World) :
  is_object v = true →
  (serverName, Some c) ∈ Object_entries v →
  serverName ≠ "__proto__" →
  established net serverName c b →
  ∃ result w',
    action net schedule (Normal (ObjectBody v)) w
    = (Normal {| status := 200; json := CheckJson result |}, w')
    ∧ (tools_reply b 0 = Abrupt e →
       outcome result serverName
       = (Some false,
          Some ("Server connection established but failed to get available tools: "
                  +:+ errorToString e),
          None))
    ∧ (∀ t, tools_reply b 0 = Normal t → tools_reply b 1 = Abrupt e →
            close_reply b 0 = Normal tt →
       outcome result serverName
       = (Some true,
          Some ("Connected but failed to get tools: " +:+ errorToString e),
          None)).
Proof.
  intros Hobj Hin Hname Hestablished.
  destruct (action_run_object net schedule v w Hobj) as [w' ->].
  eexists _, _. split; [reflexivity|].
  rewrite (verdicts_outcome net _ serverName (Some c))
    by (apply Object_entries_NoDup || done).
  rewrite verdict_outcome by done. split.
  - intros Hprobe.
    by rewrite (creation_probe_failed net _ _ _ _ Hestablished Hprobe).
  - intros t Hprobe Htools Hclose.
    by rewrite (creation_probe_passed net _ _ _ _ Hestablished Hprobe), Htools, Hclose.
Qed.

Lemma probe_failure_outcome_witness :
  ∃ result w',
    action Sample.net [0; 1; 1; 0; 1]
      (Sample.request
         [("git", Some (Sample.stdio "mcp-server-git"));
          ("fading", Some (Sample.stdio "f"))]) []
    = (Normal {| status := 200; json := CheckJson result |}, w')
    ∧ outcome result "fading"
      = (Some true, Some "Connected but failed to get tools: Request timed out", None).
Proof.
  destruct (probe_failure_outcome Sample.net [0; 1; 1; 0; 1]
              (JSObject
                 (list_to_map
                    [("git", Some (Sample.stdio "mcp-server-git"));
                     ("fading", Some (Sample.stdio "f"))]))
              "fading" (Sample.stdio "f") (Sample.fading Sample.git_tools)
              (ErrorObject "Request timed out") [])
    as (result & w' & Hrun & _ & Hfading).
  - reflexivity.
  - apply elem_of_map_to_list. reflexivity.
  - discriminate.
  - split; reflexivity.
  - exists result, w'. split; [exact Hrun|].
    apply (Hfading Sample.git_tools); reflexivity.
Defined.

(** ** Closing the clients *)

Section Closing.
Variable net : Network.

(** [closeMCPClients] calls [close()] on every client, in order,
    whatever the calls answer, and never rejects. *)
Lemma closeMCPClients_run {L : Type} (clients : list MCPClient) (l : L) (w : World) :
  run (closeMCPClients clients) (l, w)
  = (Normal tt,
     (l, w ++ map (fun client => CloseCalled (owner client) (serial client)) clients)).
Proof.
  unfold closeMCPClients. rewrite run_bind.
  assert (∀ w0, run (Promise_allSettled
        (map (fun client : MCPClient =>
                try_catch (client_close client) (fun _ => ret tt)) clients)) (l, w0)
      = (Normal (map (fun _ => Normal tt) clients),
         (l, w0 ++ map (fun client => CloseCalled (owner client) (serial client))
                     clients))) as ->;
    [|done].
  induction clients as [|client clients IH]; intros w0.
  { simpl. by rewrite app_nil_r. }
  cbn [map Promise_allSettled].
  rewrite run_bind, run_settle, run_try_catch, client_close_run.
  destruct (close_reply (behaviour client) _) as [[]|e];
    simpl; rewrite run_bind, IH, <- app_assoc; done.
Qed.

(** When [createMCPClient] returned a client, the unit of work of the
    check closes it exactly once. *)
Lemma returned_client_closed_once name cfg b s w :
  creation net name cfg = Normal b →
  let i := fresh_serial name w in
  let w' := (run (check_unit net (name, cfg)) (s, w)).2.2 in
  count_event (Created name i) w' = 1 ∧ count_event (CloseCalled name i) w' = 1.
Proof.
  intros Hcreation. cbv zeta. rewrite check_unit_run. cbn [snd].
  destruct (new_client_calls net name cfg w b Hcreation) as (Hcreated & _ & Hclosed).
  unfold unit_log. cbv zeta. rewrite Hcreation, app_assoc, !count_event_app.
  rewrite count_event_app in Hcreated, Hclosed.
  rewrite !count_event_cons, !count_event_nil.
  repeat case_decide; simplify_eq; lia.
Qed.

(** When the connection was established and the [tools()] call of
    [createMCPClient] fails, the client that was created is never
    closed. *)
Lemma probed_client_never_closed name c b e s w :
  established net name c b → tools_reply b 0 = Abrupt e →
  let i := fresh_serial name w in
  let w' := (run (check_unit net (name, Some c)) (s, w)).2.2 in
  count_event (Created name i) w' = 1 ∧ count_event (CloseCalled name i) w' = 0.
Proof.
  intros Hestablished Hprobe. cbv zeta. rewrite check_unit_run. cbn [snd].
  unfold unit_log. cbv zeta.
  rewrite (creation_probe_failed net _ _ _ _ Hestablished Hprobe), app_nil_r.
  destruct Hestablished as [Haccepted Hconnect].
  unfold creation_log. rewrite Haccepted, Hconnect. cbv zeta.
  rewrite !count_event_app, !count_event_cons, !count_event_nil.
  rewrite !(count_event_unmentioned _ w) by (simpl; lia).
  repeat case_decide; simplify_eq; done.
Qed.

(** X25. However the units of work of the check interleave, a client
    that [createMCPClient] returned is closed by the check exactly once:
    the log of the check records one creation and one [close()] call
    for it. *)
Lemma check_closes_returned_client schedule (v : JSValue) name cfg b w :
  is_object v = true → (name, cfg) ∈ Object_entries v →
  creation net name cfg = Normal b →
  let i := fresh_serial name w in
  let w' := (action net schedule (Normal (ObjectBody v)) w).2 in
  count_event (Created name i) w' = 1 ∧ count_event (CloseCalled name i) w' = 1.
Proof.
  intros Hobj Hin Hcreation. cbv zeta.
  pose proof (returned_client_closed_once name cfg b no_stores w Hcreation)
    as Halone.
  cbv zeta in Halone. rewrite check_unit_run in Halone. cbn [snd] in Halone.
  rewrite (count_event_view (Created _ _)), (count_event_view (CloseCalled _ _)).
  rewrite (count_event_view (Created _ _)), (count_event_view (CloseCalled _ _))
    in Halone.
  cbn [server_of] in *. by rewrite (action_view net schedule v w name cfg).
Qed.

(** X28. However the units of work of the check interleave, the client
    of a server that accepts the connection and fails the [tools()] call
    of [createMCPClient] is created once and never closed. *)
Lemma check_leaks_probed_client schedule (v : JSValue) name c b e w :
  is_object v = true → (name, Some c) ∈ Object_entries v →
  established net name c b → tools_reply b 0 = Abrupt e →
  let i := fresh_serial name w in
  let w' := (action net schedule (Normal (ObjectBody v)) w).2 in
  count_event (Created name i) w' = 1 ∧ count_event (CloseCalled name i) w' = 0.
Proof.
  intros Hobj Hin Hestablished Hprobe. cbv zeta.
  pose proof (probed_client_never_closed name c b e no_stores w Hestablished Hprobe)
    as Halone.
  cbv zeta in Halone. rewrite check_unit_run in Halone. cbn [snd] in Halone.
  rewrite (count_event_view (Created _ _)), (count_event_view (CloseCalled _ _)).
  rewrite (count_event_view (Created _ _)), (count_event_view (CloseCalled _ _))
    in Halone.
  cbn [server_of] in *. by rewrite (action_view net schedule v w name (Some c)).
Qed.
End Closing.

Lemma check_closes_returned_client_witness :
  let w' :=
    (action Sample.net [0; 1; 1]
       (Normal (ObjectBody (JSObject (list_to_map
          [("git", Some (Sample.stdio "mcp-server-git"));
           ("down", Some (Sample.stdio "d"))])))) []).2 in
  count_event (Created "git" 0) w' = 1 ∧ count_event (CloseCalled "git" 0) w' = 1.
Proof.
  apply (check_closes_returned_client Sample.net [0; 1; 1]
           (JSObject (list_to_map
              [("git", Some (Sample.stdio "mcp-server-git"));
               ("down", Some (Sample.stdio "d"))]))
           "git" (Some (Sample.stdio "mcp-server-git"))
           (Sample.healthy Sample.git_tools) []).
  - reflexivity.
  - apply elem_of_map_to_list. reflexivity.
  - reflexivity.
Defined.

Lemma check_leaks_probed_client_witness :
  let w' :=
    (action Sample.net [1; 1; 0]
       (Normal (ObjectBody (JSObject (list_to_map
          [("git", Some (Sample.stdio "mcp-server-git"));
           ("mute", Some (Sample.stdio "m"))])))) []).2 in
  count_event (Created "mute" 0) w' = 1 ∧ count_event (CloseCalled "mute" 0) w' = 0.
Proof.
  apply (check_leaks_probed_client Sample.net [1; 1; 0]
           (JSObject (list_to_map
              [("git", Some (Sample.stdio "mcp-server-git"));
               ("mute", Some (Sample.stdio "m"))]))
           "mute" (Sample.stdio "m") Sample.mute
           (ErrorObject "Method not found") []).
  - reflexivity.
  - apply elem_of_map_to_list. reflexivity.
  - split; reflexivity.
  - reflexivity.
Defined.

(** X29. Whatever the schedule, a [close()] that fails after the tools
    were retrieved turns the entry of the server into: status [false],
    the error of [close()], and the tools still there.  A server named
    "__proto__" has no entry. *)
Theorem close_failure_outcome (net : Network) (schedule : list nat) (v : JSValue)
    (name : string) (c : ServerConfig) (b : Behaviour) (t0 t : ToolSet)
    (e : Thrown) (w : World) :
  is_object v = true →
  (name, Some c) ∈ Object_entries v →
  established net name c b →
  tools_reply b 0 = Normal t0 → tools_reply b 1 = Normal t →
  close_reply b 0 = Abrupt e →
  ∃ result w',
    action net schedule (Normal (ObjectBody v)) w
    = (Normal {| status := 200; json := CheckJson result |}, w')
    ∧ outcome result name
      = if String.eqb name "__proto__" then (None, None, None)
        else (Some false, Some (errorToString e), Some t).
Proof.
  intros Hobj Hin Hestablished Hprobe Htools Hclose.
  destruct (action_run_object net schedule v w Hobj) as [w' ->].
  eexists _, _. split; [reflexivity|].
  destruct (String.eqb_spec name "__proto__") as [->|Hname].
  - by rewrite verdicts_proto.
  - rewrite (verdicts_outcome net _ name (Some c))
      by (apply Object_entries_NoDup || done).
    rewrite verdict_outcome by done.
    by rewrite (creation_probe_passed net _ _ _ _ Hestablished Hprobe), Htools, Hclose.
Qed.

Lemma close_failure_outcome_witness :
  ∃ result w',
    action Sample.net [0; 0; 1]
      (Normal (ObjectBody (JSObject (list_to_map
         [("sticky", Some (Sample.stdio "s"));
          ("git", Some (Sample.stdio "mcp-server-git"))])))) []
    = (Normal {| status := 200; json := CheckJson result |}, w')
    ∧ outcome result "sticky"
      = (Some false, Some "write EPIPE", Some Sample.git_tools).
Proof.
  apply (close_failure_outcome Sample.net [0; 0; 1]
           (JSObject (list_to_map
              [("sticky", Some (Sample.stdio "s"));
               ("git", Some (Sample.stdio "mcp-server-git"))]))
           "sticky" (Sample.stdio "s") (Sample.sticky Sample.git_tools)
           Sample.git_tools Sample.git_tools (ErrorObject "write EPIPE") []).
  - reflexivity.
  - apply elem_of_map_to_list. reflexivity.
  - split; reflexivity.
  - reflexivity.
  - reflexivity.
  - reflexivity.
Defined.

(** C3 fails on the code: the check of a server that accepts the
    connection and fails [tools()] creates a client (the first of that
    server) and returns without having called [close()] on it. *)
Theorem probe_failure_leaks_client :
  let '(response, w') :=
    action Sample.net [] (Sample.request [("mute", Some (Sample.stdio "m"))]) [] in
  w' = [Attempt "mute" (StdioTransport (Some "m") None None None);
        Created "mute" 0; ToolsCalled "mute" 0]
  ∧ count_event (Created "mute" 0) w' = 1
  ∧ count_event (CloseCalled "mute" 0) w' = 0.
Proof. vm_compute. repeat split. Qed.

(** C5 fails on the code: a server that answers [tools()] and whose
    [close()] fails is filed with status [false] while its tools stay
    in [serverTools]. *)
Theorem close_failure_keeps_tools_of_unreachable :
  outcome
    (Sample.result_of
       (action Sample.net []
          (Sample.request [("sticky", Some (Sample.stdio "s"))]) []))
    "sticky"
  = (Some false, Some "write EPIPE", Some Sample.git_tools).
Proof. reflexivity. Qed.

(** C7 fails on the code in the check: the same answers to [tools()]
    give status [true] when [close()] succeeds and status [false] with
    the error of [close()] when it fails. *)
Theorem close_failure_changes_outcome :
  outcome
    (Sample.result_of
       (action Sample.net []
          (Sample.request [("git", Some (Sample.stdio "mcp-server-git"))]) []))
    "git"
  = (Some true, None, Some Sample.git_tools)
  ∧ outcome
      (Sample.result_of
         (action Sample.net []
            (Sample.request [("sticky", Some (Sample.stdio "mcp-server-git"))]) []))
      "sticky"
    = (Some false, Some "write EPIPE", Some Sample.git_tools).
Proof. split; reflexivity. Qed.

(** ** Supplement: the check when no [close()] fails *)

Section Supplement.
Variable net : Network.

(** The errors that [createMCPClient] throws carry a message. *)
Lemma creation_message name cfg e :
  creation net name cfg = Abrupt e → ∃ message, e = ErrorObject message ∧ message ≠ "".
Proof.
  unfold creation, refusal, connect_failure, probe_failure.
  destruct cfg as [c|].
  - destruct (isSSE c); simpl; repeat (case_match; simpl);
      intros ?; simplify_eq; (eexists; split; [reflexivity|discriminate]).
  - intros [= <-]. eexists; split; [reflexivity|discriminate].
Qed.

(** X26. Whatever the schedule, a server that the check files with
    status [false] has no tools and an error that is not the empty
    string, unless the [close()] of its client failed. *)
Lemma unreachable_has_error_and_no_tools schedule (v : JSValue) name cfg w :
  is_object v = true →
  (name, cfg) ∈ Object_entries v →
  (∀ b, creation net name cfg = Normal b → close_reply b 0 = Normal tt) →
  ∃ result w',
    action net schedule (Normal (ObjectBody v)) w
    = (Normal {| status := 200; json := CheckJson result |}, w')
    ∧ (serverStatus result !! name = Some false →
       serverTools result !! name = None
       ∧ ∃ message, serverErrors result !! name = Some message ∧ message ≠ "").
Proof.
  intros Hobj Hin Hclose.
  destruct (action_run_object net schedule v w Hobj) as [w' ->].
  eexists _, _. split; [reflexivity|].
  destruct (decide (name = "__proto__")) as [->|Hname].
  { pose proof (verdicts_proto net (Object_entries v) no_stores) as [= -> _ _].
    by rewrite lookup_empty. }
  pose proof (verdicts_outcome net _ name cfg no_stores
                (Object_entries_NoDup v) Hin) as Hout.
  rewrite verdict_outcome in Hout by done.
  unfold outcome in Hout.
  destruct (creation net name cfg) as [b|e] eqn:Hcreation.
  - rewrite (Hclose b eq_refl) in Hout. injection Hout as -> _ _. discriminate.
  - destruct (creation_message name cfg e Hcreation) as (message & -> & Hmessage).
    injection Hout as -> -> ->. cbn. rewrite lookup_empty. eauto.
Qed.
End Supplement.

Lemma unreachable_has_error_and_no_tools_witness :
  ∃ result w',
    action Sample.net [0]
      (Normal (ObjectBody (JSObject (list_to_map
         [("down", Some (Sample.stdio "d"))])))) []
    = (Normal {| status := 200; json := CheckJson result |}, w')
    ∧ serverTools result !! "down" = None
    ∧ ∃ message, serverErrors result !! "down" = Some message ∧ message ≠ "".
Proof.
  destruct (unreachable_has_error_and_no_tools Sample.net [0]
              (JSObject (list_to_map [("down", Some (Sample.stdio "d"))]))
              "down" (Some (Sample.stdio "d")) [])
    as (result & w' & Hrun & Hfalse).
  - reflexivity.
  - apply elem_of_map_to_list. reflexivity.
  - intros b Hb. discriminate Hb.
  - exists result, w'. split; [exact Hrun|].
    apply Hfalse. vm_compute in Hrun. injection Hrun as <- <-. reflexivity.
Defined.

(** * More of the service *)

(** ** The loop of [createMCPClients] *)

Lemma count_event_notin e (w : World) : e ∉ w → count_event e w = 0.
Proof.
  induction w as [|e' w IH]; intros Hnotin; [done|].
  rewrite count_event_cons, IH by (intros ?; apply Hnotin; by right).
  case_decide; [|done]. subst. exfalso. apply Hnotin. left.
Qed.

Section Harvest.
Variable net : Network.
Implicit Types (a : Aggregate) (w : World)
  (servers : list (string * option ServerConfig)).

Lemma harvests_cons name cfg servers a w :
  harvests net ((name, cfg) :: servers) (a, w)
  = harvests net servers
      (harvest net name cfg w a, w ++ init_log net name cfg w).
Proof. done. Qed.

Lemma harvests_app servers1 servers2 (s : Aggregate * World) :
  harvests net (servers1 ++ servers2) s
  = harvests net servers2 (harvests net servers1 s).
Proof. apply foldl_app. Qed.

Lemma for_each_init_server_run servers a w :
  run (for_each (init_server net) servers) (a, w)
  = (Normal tt, harvests net servers (a, w)).
Proof.
  revert a w. induction servers as [|[name cfg] servers IH]; intros a w; [done|].
  cbn [for_each]. rewrite run_bind, init_server_run, IH. done.
Qed.

(** The code computes [harvests], and never rejects. *)
Lemma createMCPClients_harvests servers w :
  createMCPClients net (Some {| mcpServers := Some servers |}) w
  = (Normal (harvests net servers ({| tools := ∅; clients := [] |}, w)).1,
     (harvests net servers ({| tools := ∅; clients := [] |}, w)).2).
Proof.
  unfold createMCPClients. cbn [mbind option_bind mcpServers].
  rewrite for_each_init_server_run.
  by destruct (harvests net servers _) as [a' w'].
Qed.

(** The events that one turn of the loop logs. *)
Lemma init_log_events name cfg w e :
  e ∈ init_log net name cfg w →
  (∃ t, e = Attempt name t)
  ∨ e = Created name (fresh_serial name w)
  ∨ e = ToolsCalled name (fresh_serial name w).
Proof.
  unfold init_log, creation_log.
  destruct (creation net name cfg); destruct cfg as [c|];
    try destruct (refusal name c);
    try destruct (experimental_createMCPClient net name (request_of c));
    cbv zeta; rewrite ?app_nil_r, ?elem_of_app, ?elem_of_cons, ?elem_of_nil;
    naive_solver.
Qed.

Lemma init_log_created name cfg w b :
  creation net name cfg = Normal b →
  ∃ t, init_log net name cfg w
       = [Attempt name t; Created name (fresh_serial name w);
          ToolsCalled name (fresh_serial name w);
          ToolsCalled name (fresh_serial name w)].
Proof.
  intros Hcreation. unfold init_log. rewrite Hcreation.
  unfold creation in Hcreation. unfold creation_log.
  destruct cfg as [c|]; [|done].
  destruct (refusal name c); [done|].
  destruct (experimental_createMCPClient net name (request_of c)); [|done].
  by eexists.
Qed.

Lemma init_log_own name cfg w :
  Forall (fun e => server_of e = name) (init_log net name cfg w).
Proof.
  apply Forall_forall. intros e He.
  apply init_log_events in He as [[t ->]|[->| ->]]; done.
Qed.

Lemma init_log_fresh name cfg w server :
  fresh_serial server w ≤ fresh_serial server (w ++ init_log net name cfg w).
Proof. rewrite fresh_serial_app. lia. Qed.

Lemma init_log_never_closes name cfg w server i :
  count_event (CloseCalled server i) (w ++ init_log net name cfg w)
  = count_event (CloseCalled server i) w.
Proof.
  rewrite count_event_app, (count_event_notin _ (init_log _ _ _ _)); [lia|].
  intros He. apply init_log_events in He as [[t ?]|[?|?]]; done.
Qed.

Lemma harvest_clients name cfg w a :
  clients (harvest net name cfg w a)
  = clients a
    ++ match creation net name cfg with
       | Normal b =>
           [{| owner := name; serial := fresh_serial name w; behaviour := b |}]
       | Abrupt _ => []
       end.
Proof.
  unfold harvest. destruct (creation net name cfg) as [b|e].
  - by destruct (tools_reply b 1).
  - by rewrite app_nil_r.
Qed.

(** A property of the local variables and the log that every turn of
    the loop keeps holds when the loop is over. *)
Lemma harvests_ind (I : Aggregate * World → Prop) servers :
  (∀ name cfg a w, (name, cfg) ∈ servers → I (a, w) →
     I (harvest net name cfg w a, w ++ init_log net name cfg w)) →
  ∀ s, I s → I (harvests net servers s).
Proof.
  induction servers as [|[name cfg] servers IH]; intros Hstep [a w] Hs; [done|].
  rewrite harvests_cons. apply IH.
  - intros ? ? ? ? Hin. apply Hstep. by right.
  - apply Hstep; [left|done].
Qed.

Lemma harvests_grows servers a w :
  let w' := (harvests net servers (a, w)).2 in
  (∀ server, fresh_serial server w ≤ fresh_serial server w')
  ∧ (∀ server i, count_event (CloseCalled server i) w'
                 = count_event (CloseCalled server i) w)
  ∧ (∀ other, other ∉ servers.*1 → view other w' = view other w).
Proof.
  cbv zeta.
  apply (harvests_ind (fun s =>
    (∀ server, fresh_serial server w ≤ fresh_serial server s.2)
    ∧ (∀ server i, count_event (CloseCalled server i) s.2
                   = count_event (CloseCalled server i) w)
    ∧ (∀ other, other ∉ servers.*1 → view other s.2 = view other w))); [|done].
  intros name cfg a1 w1 Hin (Hfresh & Hclose & Hview). cbn [snd] in *.
  split; [|split].
  - intros server. specialize (Hfresh server).
    pose proof (init_log_fresh name cfg w1 server). lia.
  - intros server i. by rewrite init_log_never_closes.
  - intros other Hother. rewrite view_app, Hview by done.
    rewrite (view_other name other (init_log net name cfg w1));
      [by rewrite app_nil_r| |apply init_log_own].
    intros ->. apply Hother. by apply (list_elem_of_fmap_2 fst _ (name, cfg)).
Qed.

Lemma accounted_clients_step w0 name cfg a w :
  (∀ server, fresh_serial server w0 ≤ fresh_serial server w) →
  accounted_clients w0 w (clients a) →
  accounted_clients w0 (w ++ init_log net name cfg w)
    (clients (harvest net name cfg w a)).
Proof.
  intros Hfresh [Hnodup Hclients].
  assert (∀ c, c ∈ clients a →
            fresh_serial (owner c) w0 ≤ serial c
            ∧ serial c < fresh_serial (owner c) (w ++ init_log net name cfg w)
            ∧ count_event (Created (owner c) (serial c))
                (w ++ init_log net name cfg w) = 1) as Hold.
  { intros c Hc. destruct (Hclients c Hc) as (Hlow & Hhigh & Hcreated).
    split; [done|]. split.
    - pose proof (init_log_fresh name cfg w (owner c)). lia.
    - rewrite count_event_app, Hcreated, count_event_notin; [done|].
      intros He. apply init_log_events in He as [[t ?]|[?|?]]; simplify_eq. lia. }
  rewrite harvest_clients.
  destruct (creation net name cfg) as [b|e] eqn:Hcreation.
  - destruct (init_log_created name cfg w b Hcreation) as [t Hlog].
    split.
    + rewrite fmap_app. apply NoDup_app. split; [done|]. split.
      * intros x Hx Hx'. apply list_elem_of_singleton in Hx'. subst x.
        apply list_elem_of_fmap in Hx as (c & Heq & Hc).
        destruct (Hclients c Hc) as (_ & Hhigh & _).
        unfold ident in Heq. simpl in Heq. simplify_eq. lia.
      * apply NoDup_singleton.
    + intros c Hc. apply elem_of_app in Hc as [Hc|Hc]; [by apply Hold|].
      apply list_elem_of_singleton in Hc. subst c. cbn [owner serial].
      split; [apply Hfresh|]. rewrite Hlog. split.
      * rewrite fresh_serial_app, !fresh_serial_cons. cbn [server_of mentions].
        case_decide; [lia|done].
      * rewrite count_event_app, !count_event_cons, count_event_nil.
        rewrite (count_event_unmentioned _ w) by (simpl; lia).
        repeat case_decide; simplify_eq; done.
  - rewrite app_nil_r. split; [done|]. apply Hold.
Qed.

Lemma harvests_accounted servers w0 a w :
  (∀ server, fresh_serial server w0 ≤ fresh_serial server w) →
  accounted_clients w0 w (clients a) →
  accounted_clients w0 (harvests net servers (a, w)).2
    (clients (harvests net servers (a, w)).1).
Proof.
  intros Hfresh Haccounted.
  apply (harvests_ind (fun s =>
    (∀ server, fresh_serial server w0 ≤ fresh_serial server s.2)
    ∧ accounted_clients w0 s.2 (clients s.1)) servers); [|done].
  intros name cfg a1 w1 _ [Hfresh1 Haccounted1]. cbn [fst snd] in *. split.
  - intros server. specialize (Hfresh1 server).
    pose proof (init_log_fresh name cfg w1 server). lia.
  - by apply accounted_clients_step.
Qed.
End Harvest.

Section Merging.
Variable net : Network.
Implicit Types (servers : list (string * option ServerConfig)) (acc : ToolSet).


End Merging.

(** X1. [createMCPClients] never rejects, whatever the configuration
    and whatever the servers answer.  Without a configuration, without
    [mcpServers], or with no server in it, it returns no tool and no
    client and leaves the world alone.  It contacts no server that the
    configuration does not name, and calls [close()] on no client. *)
Theorem createMCPClients_never_rejects (net : Network)
    (mcpConfig : option McpConfig) (w : World) :
  ∃ result w',
    createMCPClients net mcpConfig w = (Normal result, w')
    ∧ (default [] (mcpConfig ≫= mcpServers) = [] →
       tools result = ∅ ∧ clients result = [] ∧ w' = w)
    ∧ (∀ other, other ∉ (default [] (mcpConfig ≫= mcpServers)).*1 →
                view other w' = view other w)
    ∧ ∀ server i, count_event (CloseCalled server i) w'
                  = count_event (CloseCalled server i) w.
Proof.
  destruct (mcpConfig ≫= mcpServers) as [servers|] eqn:Hservers.
  - assert (createMCPClients net mcpConfig w
            = createMCPClients net (Some {| mcpServers := Some servers |}) w) as ->.
    { unfold createMCPClients. by rewrite Hservers. }
    rewrite createMCPClients_harvests. eexists _, _. split; [reflexivity|].
    destruct (harvests_grows net servers {| tools := ∅; clients := [] |} w)
      as (_ & Hclose & Hview).
    change (default [] (Some servers)) with servers. split; [|done].
    by intros ->.
  - exists {| tools := ∅; clients := [] |}, w.
    unfold createMCPClients. rewrite Hservers. done.
Qed.

Lemma createMCPClients_never_rejects_witness :
  ∃ result w',
    createMCPClients Sample.net
      (Some {| mcpServers := Some [("git", Some (Sample.stdio "mcp-server-git"))] |})
      [CloseCalled "git" 0; Created "A" 0]
    = (Normal result, w')
    ∧ view "A" w' = [Created "A" 0]
    ∧ count_event (CloseCalled "git" 0) w' = 1.
Proof.
  destruct (createMCPClients_never_rejects Sample.net
              (Some {| mcpServers := Some [("git", Some (Sample.stdio "mcp-server-git"))] |})
              [CloseCalled "git" 0; Created "A" 0])
    as (result & w' & Hrun & _ & Hview & Hclose).
  exists result, w'. split; [exact Hrun|]. split.
  - rewrite (Hview "A"); [reflexivity|].
    cbn. intros Hin. apply list_elem_of_singleton in Hin. discriminate Hin.
  - rewrite Hclose. reflexivity.
Defined.



Section Clients.
Variable net : Network.
Implicit Types (a : Aggregate) (w : World)
  (servers : list (string * option ServerConfig)).

Lemma harvests_clients_list servers a w :
  ∃ new,
    clients (harvests net servers (a, w)).1 = clients a ++ new
    ∧ Forall2 (fun client entry =>
                 owner client = entry.1
                 ∧ creation net entry.1 entry.2 = Normal (behaviour client))
        new
        (filter (fun entry => succeeded (creation net entry.1 entry.2) = true)
           servers).
Proof.
  revert a w. induction servers as [|[name cfg] servers IH]; intros a w.
  { exists []. by rewrite app_nil_r. }
  rewrite harvests_cons.
  destruct (IH (harvest net name cfg w a) (w ++ init_log net name cfg w))
    as (new & -> & Hnew).
  rewrite harvest_clients, filter_cons. cbn [fst snd].
  destruct (creation net name cfg) as [b|e] eqn:Hcreation; cbn [succeeded].
  - rewrite decide_True by done. eexists. rewrite <- app_assoc.
    split; [reflexivity|]. by constructor.
  - rewrite decide_False by done. exists new. by rewrite app_nil_r.
Qed.

Lemma count_close_calls (cs : list MCPClient) (c : MCPClient) :
  NoDup (ident <$> cs) → c ∈ cs →
  count_event (CloseCalled (owner c) (serial c))
    (map (fun client => CloseCalled (owner client) (serial client)) cs) = 1.
Proof.
  induction cs as [|c' cs IH]; intros Hnodup Hc; [by apply elem_of_nil in Hc|].
  rewrite fmap_cons in Hnodup. apply NoDup_cons in Hnodup as [Hnotin Hnodup].
  cbn [map]. rewrite count_event_cons.
  apply elem_of_cons in Hc as [->|Hc].
  - rewrite decide_True by done. rewrite count_event_notin; [done|].
    intros Hin. apply Hnotin.
    apply list_elem_of_fmap in Hin as (c'' & Heq & Hc'').
    apply list_elem_of_fmap. exists c''. split; [|done].
    unfold ident. congruence.
  - rewrite IH by done. rewrite decide_False; [done|].
    intros Heq. apply Hnotin. apply list_elem_of_fmap. exists c.
    split; [|done]. unfold ident. congruence.
Qed.

Lemma accounted_clients_nil w0 w : accounted_clients w0 w [].
Proof.
  split; [apply NoDup_nil_2|]. intros c Hc. by apply elem_of_nil in Hc.
Qed.
End Clients.

(** X3. The clients that [createMCPClients] returns are those that
    [createMCPClient] handed out, one for each server for which it
    succeeded, in the order of the servers.  The client of a server
    whose second [tools()] call fails is among them all the same.  No
    client object occurs twice. *)
Theorem returned_clients_are_those_created (net : Network)
    (servers : list (string * option ServerConfig)) (w : World) :
  ∃ result w',
    createMCPClients net (Some {| mcpServers := Some servers |}) w
    = (Normal result, w')
    ∧ Forall2 (fun client entry =>
                 owner client = entry.1
                 ∧ creation net entry.1 entry.2 = Normal (behaviour client))
        (clients result)
        (filter (fun entry => succeeded (creation net entry.1 entry.2) = true)
           servers)
    ∧ NoDup (ident <$> clients result).
Proof.
  rewrite createMCPClients_harvests. eexists _, _. split; [reflexivity|]. split.
  - destruct (harvests_clients_list net servers {| tools := ∅; clients := [] |} w)
      as (new & -> & Hnew).
    done.
  - apply (harvests_accounted net servers w); [done|apply accounted_clients_nil].
Qed.

(** X4. When the clients that [createMCPClients] returned are given to
    [closeMCPClients], every one of them, created once and not closed
    until then, has its [close()] called exactly once; nothing
    rejects. *)
Theorem created_clients_closed_once (net : Network)
    (servers : list (string * option ServerConfig)) (w : World) :
  ∃ result w' w'',
    createMCPClients net (Some {| mcpServers := Some servers |}) w
    = (Normal result, w')
    ∧ run (closeMCPClients (clients result)) (tt, w') = (Normal tt, (tt, w''))
    ∧ ∀ client, client ∈ clients result →
        count_event (Created (owner client) (serial client)) w'' = 1
        ∧ count_event (CloseCalled (owner client) (serial client)) w' = 0
        ∧ count_event (CloseCalled (owner client) (serial client)) w'' = 1.
Proof.
  rewrite createMCPClients_harvests. eexists _, _, _.
  split; [reflexivity|]. rewrite closeMCPClients_run. split; [reflexivity|].
  intros c Hc.
  destruct (harvests_accounted net servers w {| tools := ∅; clients := [] |} w)
    as [Hnodup Hclients]; [done|apply accounted_clients_nil|].
  destruct (harvests_grows net servers {| tools := ∅; clients := [] |} w)
    as (_ & Hclose & _).
  cbv zeta in Hclose.
  destruct (Hclients c Hc) as (Hlow & Hhigh & Hcreated).
  assert (count_event (CloseCalled (owner c) (serial c))
            (harvests net servers ({| tools := ∅; clients := [] |}, w)).2 = 0)
    as Hopen.
  { rewrite Hclose. apply count_event_unmentioned. simpl. lia. }
  split; [|split; [done|]].
  - rewrite count_event_app, Hcreated, count_event_notin; [done|].
    intros Hin. apply list_elem_of_fmap in Hin as (? & ? & _). done.
  - rewrite count_event_app, Hopen. by rewrite count_close_calls.
Qed.

Lemma created_clients_closed_once_witness :
  ∃ result w' w'',
    createMCPClients Sample.net
      (Some {| mcpServers := Some [("git", Some (Sample.stdio "mcp-server-git"));
                                   ("fading", Some (Sample.stdio "f"))] |})
      []
    = (Normal result, w')
    ∧ run (closeMCPClients (clients result)) (tt, w') = (Normal tt, (tt, w''))
    ∧ count_event (CloseCalled "fading" 0) w'' = 1.
Proof.
  destruct (created_clients_closed_once Sample.net
              [("git", Some (Sample.stdio "mcp-server-git"));
               ("fading", Some (Sample.stdio "f"))] [])
    as (result & w' & w'' & Hrun & Hclose & Hclients).
  exists result, w', w''. split; [exact Hrun|]. split; [exact Hclose|].
  injection Hrun as <- <-.
  apply (Hclients {| owner := "fading"; serial := 0;
                     behaviour := Sample.fading Sample.git_tools |}).
  right. left.
Defined.

Section Leak.
Variable net : Network.
Implicit Types (a : Aggregate) (w : World)
  (servers : list (string * option ServerConfig)).

(** Once the log records the creation of client [i] of a server, the
    loop hands out no client with that name and number. *)
Lemma harvests_apart servers name i a w :
  (∀ c, c ∈ clients a → ident c ≠ (name, i)) →
  S i ≤ fresh_serial name w →
  count_event (Created name i) w = 1 →
  let s' := harvests net servers (a, w) in
  (∀ c, c ∈ clients s'.1 → ident c ≠ (name, i))
  ∧ count_event (Created name i) s'.2 = 1.
Proof.
  intros Hapart Hfresh Hcreated. cbv zeta.
  enough ((∀ c, c ∈ clients (harvests net servers (a, w)).1 → ident c ≠ (name, i))
          ∧ S i ≤ fresh_serial name (harvests net servers (a, w)).2
          ∧ count_event (Created name i) (harvests net servers (a, w)).2 = 1)
    by naive_solver.
  apply (harvests_ind net (fun s =>
    (∀ c, c ∈ clients s.1 → ident c ≠ (name, i))
    ∧ S i ≤ fresh_serial name s.2
    ∧ count_event (Created name i) s.2 = 1) servers); [|done].
  intros name' cfg a1 w1 _ (Hapart1 & Hfresh1 & Hcreated1). cbn [fst snd] in *.
  split; [|split].
  - intros c. rewrite harvest_clients, elem_of_app. intros [Hc|Hc]; [by apply Hapart1|].
    destruct (creation net name' cfg); [|by apply elem_of_nil in Hc].
    apply list_elem_of_singleton in Hc. subst c. unfold ident. cbn [owner serial].
    intros Heq. simplify_eq. lia.
  - pose proof (init_log_fresh net name' cfg w1 name). lia.
  - rewrite count_event_app, Hcreated1, count_event_notin; [done|].
    intros He. apply init_log_events in He as [[t ?]|[?|?]]; simplify_eq. lia.
Qed.
End Leak.

(** X5. A server that accepts the connection and fails the [tools()]
    call that [createMCPClient] makes leaves a client behind in
    [createMCPClients] too: the client was created, it is not among the
    clients that are returned, and [closeMCPClients] on the returned
    clients does not close it. *)
Theorem createMCPClients_leaks_probed_client (net : Network)
    (before after : list (string * option ServerConfig)) (name : string)
    (c : ServerConfig) (b : Behaviour) (e : Thrown) (w : World) :
  established net name c b → tools_reply b 0 = Abrupt e →
  ∃ result w' w'' i,
    createMCPClients net
      (Some {| mcpServers := Some (before ++ (name, Some c) :: after) |}) w
    = (Normal result, w')
    ∧ run (closeMCPClients (clients result)) (tt, w') = (Normal tt, (tt, w''))
    ∧ count_event (Created name i) w'' = 1
    ∧ (∀ client, client ∈ clients result → ident client ≠ (name, i))
    ∧ count_event (CloseCalled name i) w'' = 0.
Proof.
  intros Hestablished Hprobe.
  rewrite createMCPClients_harvests.
  set (start := {| tools := ∅; clients := [] |}).
  destruct (harvests_grows net (before ++ (name, Some c) :: after) start w)
    as (_ & Hclose & _).
  cbv zeta in Hclose. revert Hclose.
  rewrite harvests_app.
  destruct (harvests_accounted net before w start w) as [_ Hbefore];
    [done|apply accounted_clients_nil|].
  destruct (harvests_grows net before start w) as (Hgrown & _ & _).
  cbv zeta in Hgrown.
  destruct (harvests net before (start, w)) as [a1 w1]. cbn [fst snd] in *.
  rewrite harvests_cons.
  assert (harvest net name (Some c) w1 a1 = a1) as ->.
  { unfold harvest. by rewrite (creation_probe_failed net _ _ _ _ Hestablished Hprobe). }
  assert (init_log net name (Some c) w1
          = [Attempt name (request_of c); Created name (fresh_serial name w1);
             ToolsCalled name (fresh_serial name w1)]) as ->.
  { unfold init_log.
    rewrite (creation_probe_failed net _ _ _ _ Hestablished Hprobe), app_nil_r.
    destruct Hestablished as [Haccepted Hconnect].
    unfold creation_log. by rewrite Haccepted, Hconnect. }
  set (i := fresh_serial name w1).
  set (w2 := w1 ++ [Attempt name (request_of c); Created name i; ToolsCalled name i]).
  destruct (harvests_apart net after name i a1 w2) as [Hapart Hcreated].
  { intros c' Hc' Heq. destruct (Hbefore c' Hc') as (_ & Hhigh & _).
    unfold ident in Heq. injection Heq as Howner Hserial.
    rewrite Howner in Hhigh. unfold i in Hserial. lia. }
  { unfold w2. rewrite fresh_serial_app, !fresh_serial_cons.
    cbn [server_of mentions]. case_decide; [lia|done]. }
  { unfold w2. rewrite count_event_app, !count_event_cons, count_event_nil.
    rewrite (count_event_unmentioned _ w1) by (simpl; fold i; lia).
    repeat case_decide; simplify_eq; done. }
  cbv zeta in Hapart, Hcreated.
  intros Hclose. eexists _, _, _, i.
  split; [reflexivity|]. split; [apply closeMCPClients_run|].
  split; [|split; [exact Hapart|]].
  - rewrite count_event_app, Hcreated, count_event_notin; [done|].
    intros Hin. apply list_elem_of_fmap in Hin as (? & ? & _). done.
  - rewrite count_event_app, Hclose.
    rewrite (count_event_unmentioned _ w)
      by (simpl; specialize (Hgrown name); fold i in Hgrown; lia).
    rewrite count_event_notin; [done|].
    intros Hin. apply list_elem_of_fmap in Hin as (c' & Heq & Hc').
    apply (Hapart c' Hc'). unfold ident. congruence.
Qed.

Lemma createMCPClients_leaks_probed_client_witness :
  ∃ result w' w'' i,
    createMCPClients Sample.net
      (Some {| mcpServers :=
                 Some ([("git", Some (Sample.stdio "mcp-server-git"))]
                       ++ ("mute", Some (Sample.stdio "m"))
                       :: [("A", Some (Sample.stdio "a"))]) |}) []
    = (Normal result, w')
    ∧ run (closeMCPClients (clients result)) (tt, w') = (Normal tt, (tt, w''))
    ∧ count_event (Created "mute" i) w'' = 1
    ∧ (∀ client, client ∈ clients result → ident client ≠ ("mute", i))
    ∧ count_event (CloseCalled "mute" i) w'' = 0.
Proof.
  apply (createMCPClients_leaks_probed_client Sample.net
           [("git", Some (Sample.stdio "mcp-server-git"))]
           [("A", Some (Sample.stdio "a"))]
           "mute" (Sample.stdio "m") Sample.mute (ErrorObject "Method not found") []).
  - split; reflexivity.
  - reflexivity.
Defined.

Section CloseCalls.
Context {L : Type}.

Lemma count_event_map_close (cs : list MCPClient) (e : Event) :
  count_event e (map (fun client => CloseCalled (owner client) (serial client)) cs)
  = length (filter (fun client => CloseCalled (owner client) (serial client) = e) cs).
Proof.
  induction cs as [|c cs IH]; [done|].
  cbn [map]. rewrite count_event_cons, filter_cons, IH.
  by case_decide.
Qed.
End CloseCalls.

(** X6. [closeMCPClients] never rejects, whether the [close()] calls
    succeed or fail, and calls nothing but [close()]: once on each
    client, for each time the client occurs in the list. *)
Theorem closeMCPClients_closes_each_client {L : Type}
    (cs : list MCPClient) (l : L) (w : World) :
  ∃ w',
    run (closeMCPClients cs) (l, w) = (Normal tt, (l, w'))
    ∧ ∀ e, count_event e w'
           = count_event e w
             + length (filter (fun client =>
                                 CloseCalled (owner client) (serial client) = e) cs).
Proof.
  rewrite closeMCPClients_run. eexists. split; [reflexivity|].
  intros e. by rewrite count_event_app, count_event_map_close.
Qed.

(** X7. When the configuration is accepted and the transport cannot be
    set up, [createMCPClient] throws an error whose message wraps the
    cause: "Failed to connect to SSE endpoint ..." for the event
    stream, "Failed to start command ..." for the subprocess.  One
    transport was asked for and no client exists. *)
Theorem connection_failure_is_wrapped (net : Network) {L : Type}
    (serverName : string) (c : ServerConfig) (e : Thrown) (l : L) (w : World) :
  refusal serverName c = None →
  experimental_createMCPClient net serverName (request_of c) = Abrupt e →
  run (createMCPClient net serverName (Some c)) (l, w)
  = (Abrupt (ErrorObject
       (if isSSE c then
          "Failed to connect to SSE endpoint " +:+ dq +:+ interpolate (url c)
            +:+ dq +:+ ": " +:+ errorToString e
        else
          "Failed to start command " +:+ dq +:+ interpolate (command c)
            +:+ dq +:+ ": " +:+ errorToString e)),
     (l, w ++ [Attempt serverName (request_of c)])).
Proof.
  intros Haccepted Hconnect. rewrite createMCPClient_run.
  unfold creation, creation_log. by rewrite Haccepted, Hconnect.
Qed.

Lemma connection_failure_is_wrapped_witness :
  run (createMCPClient Sample.net "down"
         (Some (Sample.sse (Some "http://localhost:8000/sse")))) (tt, [])
  = (Abrupt (ErrorObject
       ("Failed to connect to SSE endpoint " +:+ dq +:+ "http://localhost:8000/sse"
          +:+ dq +:+ ": connection refused")),
     (tt, [Attempt "down" (SSETransport (Some "http://localhost:8000/sse"))])).
Proof.
  apply (connection_failure_is_wrapped Sample.net "down"
           (Sample.sse (Some "http://localhost:8000/sse"))
           (ErrorObject "connection refused") tt []); reflexivity.
Defined.

(** X8. When the connection is established and the [tools()] call that
    [createMCPClient] makes succeeds, the new client is returned after
    exactly that one call: the log gains the request for the transport,
    the creation of the client and one [tools()] call, and no
    [close()].  The tool set that the call returned is dropped. *)
Theorem createMCPClient_probes_once (net : Network) {L : Type}
    (serverName : string) (c : ServerConfig) (b : Behaviour) (t : ToolSet)
    (l : L) (w : World) :
  established net serverName c b → tools_reply b 0 = Normal t →
  let i := fresh_serial serverName w in
  let w' := w ++ [Attempt serverName (request_of c); Created serverName i;
                  ToolsCalled serverName i] in
  run (createMCPClient net serverName (Some c)) (l, w)
  = (Normal (Some {| owner := serverName; serial := i; behaviour := b |}), (l, w'))
  ∧ count_event (Created serverName i) w' = 1
  ∧ count_event (ToolsCalled serverName i) w' = 1
  ∧ count_event (CloseCalled serverName i) w' = 0.
Proof.
  intros Hestablished Hprobe. cbv zeta.
  pose proof (creation_probe_passed net _ _ _ _ Hestablished Hprobe) as Hcreation.
  pose proof (new_client_calls net serverName (Some c) w b Hcreation) as Hcalls.
  cbv zeta in Hcalls. rewrite createMCPClient_run, Hcreation.
  destruct Hestablished as [Haccepted Hconnect].
  unfold creation_log in *. rewrite Haccepted, Hconnect in *. done.
Qed.

Lemma createMCPClient_probes_once_witness :
  run (createMCPClient Sample.net "fading" (Some (Sample.stdio "f"))) (tt, [])
  = (Normal (Some {| owner := "fading"; serial := 0;
                     behaviour := Sample.fading Sample.git_tools |}),
     (tt, [Attempt "fading" (StdioTransport (Some "f") None None None);
           Created "fading" 0; ToolsCalled "fading" 0])).
Proof.
  apply (createMCPClient_probes_once Sample.net "fading" (Sample.stdio "f")
           (Sample.fading Sample.git_tools) Sample.git_tools tt []).
  - split; reflexivity.
  - reflexivity.
Defined.

(** * More of the check *)

Section CheckMore.
Variable net : Network.
Implicit Types (s : Stores) (w : World) (schedule : list nat).

Lemma interleave_nil {L A} schedule :
  interleave (L := L) (A := A) schedule [] = ret [].
Proof. induction schedule as [|i schedule IH]; [done|]. cbn [interleave]. done. Qed.

Lemma Promise_all_view_other schedule
    (entries : list (string * option ServerConfig)) s w other :
  NoDup entries.*1 → other ∉ entries.*1 →
  view other (run (Promise_all schedule (map (check_unit net) entries)) (s, w)).2.2
  = view other w.
Proof.
  intros Hnodup Hother. unfold Promise_all. rewrite run_bind.
  destruct (interleave_alone entry_of schedule entries.*1
              (map (check_unit net) entries) (s, w) Hnodup
              (check_units_minded net entries)) as (Hresults & _ & Hothers).
  destruct (run (interleave schedule (map (check_unit net) entries)) (s, w))
    as [r [s' w']].
  cbn [fst snd] in *. subst r. cbn [run snd].
  specialize (Hothers other Hother). by apply (f_equal snd) in Hothers.
Qed.

Lemma action_view_other schedule v w other :
  is_object v = true → other ∉ (Object_entries v).*1 →
  view other (action net schedule (Normal (ObjectBody v)) w).2 = view other w.
Proof.
  intros Hobj Hother.
  pose proof (Promise_all_view_other schedule (Object_entries v) no_stores w
                other (Object_entries_NoDup v) Hother) as Hview.
  unfold action, action_body.
  rewrite run_try_catch. cbn [bind].
  rewrite guard_is_object, Hobj. cbn [negb]. rewrite run_bind.
  destruct (Promise_all_units net schedule (Object_entries v) no_stores w
              (Object_entries_NoDup v)) as [w' Hrun].
  rewrite Hrun in Hview |- *. done.
Qed.

Lemma action_run_empty schedule v w :
  is_object v = true → Object_entries v = [] →
  action net schedule (Normal (ObjectBody v)) w
  = (Normal {| status := 200; json := CheckJson no_stores |}, w).
Proof.
  intros Hobj Hempty. unfold action, action_body.
  rewrite run_try_catch. cbn [bind].
  rewrite guard_is_object, Hobj, Hempty. cbn [negb map].
  unfold Promise_all. by rewrite interleave_nil.
Qed.

Lemma action_run_rejected schedule e w :
  action net schedule (Abrupt e) w
  = (Normal {| status := 500; json := ErrorJson "Failed to check MCP servers" |}, w).
Proof. done. Qed.

Lemma action_run_null schedule w :
  action net schedule (Normal NullBody) w
  = (Normal {| status := 500; json := ErrorJson "Failed to check MCP servers" |}, w).
Proof. done. Qed.

Lemma unit_log_created name cfg b w :
  creation net name cfg = Normal b →
  ∃ t, unit_log net name cfg w
       = [Attempt name t; Created name (fresh_serial name w);
          ToolsCalled name (fresh_serial name w);
          ToolsCalled name (fresh_serial name w);
          CloseCalled name (fresh_serial name w)]
       ∧ ∀ c, cfg = Some c → t = request_of c.
Proof.
  intros Hcreation. unfold unit_log. cbv zeta. rewrite Hcreation.
  unfold creation in Hcreation. unfold creation_log.
  destruct cfg as [c|]; [|done].
  destruct (refusal name c); [done|].
  destruct (experimental_createMCPClient net name (request_of c)); [|done].
  eexists. split; [reflexivity|]. by intros ? [= <-].
Qed.
End CheckMore.

(** X9. The order in which the units of work of the check take their
    steps does not show: with two schedules, the check gives the same
    response, and the log holds the same events about every server. *)
Theorem check_is_schedule_independent (net : Network)
    (schedule1 schedule2 : list nat) (request_json : Completion Body) (w : World) :
  (action net schedule1 request_json w).1 = (action net schedule2 request_json w).1
  ∧ ∀ server,
      view server (action net schedule1 request_json w).2
      = view server (action net schedule2 request_json w).2.
Proof.
  destruct request_json as [[|v]|e]; [done| |done].
  destruct (is_object v) eqn:Hobj.
  - split.
    + destruct (action_run_object net schedule1 v w Hobj) as [w1 ->].
      by destruct (action_run_object net schedule2 v w Hobj) as [w2 ->].
    + intros server.
      destruct (decide (server ∈ (Object_entries v).*1)) as [Hin|Hnotin].
      * apply list_elem_of_fmap in Hin as ([name cfg] & -> & Hin).
        by rewrite !(action_view net _ v w name cfg).
      * by rewrite !action_view_other.
  - by rewrite !action_run_other.
Qed.

(** X10. A check that does not answer 200 has contacted no server: the
    world is as the request found it, and the response carries an error
    message. *)
Theorem error_response_contacts_no_server (net : Network) (schedule : list nat)
    (request_json : Completion Body) (w : World) (response : Response)
    (w' : World) :
  action net schedule request_json w = (Normal response, w') →
  status response ≠ 200 →
  w' = w ∧ ∃ message, json response = ErrorJson message.
Proof.
  destruct request_json as [[|v]|e].
  - rewrite action_run_null. intros [= <- <-] _. eauto.
  - destruct (is_object v) eqn:Hobj.
    + destruct (action_run_object net schedule v w Hobj) as [w1 ->].
      by intros [= <- <-].
    + rewrite action_run_other by done. intros [= <- <-] _. eauto.
  - rewrite action_run_rejected. intros [= <- <-] _. eauto.
Qed.

Lemma error_response_contacts_no_server_witness :
  action Sample.net [2; 0] (Normal (ObjectBody (JSString "git"))) [Created "git" 0]
  = (Normal {| status := 400; json := ErrorJson "Invalid MCP servers configuration" |},
     [Created "git" 0])
  ∧ [Created "git" 0] = [Created "git" 0]
  ∧ ∃ message,
      json {| status := 400; json := ErrorJson "Invalid MCP servers configuration" |}
      = ErrorJson message.
Proof.
  split; [reflexivity|].
  apply (error_response_contacts_no_server Sample.net [2; 0]
           (Normal (ObjectBody (JSString "git"))) [Created "git" 0]).
  - reflexivity.
  - simpl. lia.
Defined.

(** X11. The check contacts the servers that the request names and no
    other: about any other server, the log holds what it held before.
    When the request names no server ([{}] or [[]]), the world is left
    alone and the three records of the response are empty. *)
Theorem check_contacts_named_servers_only (net : Network) (schedule : list nat)
    (v : JSValue) (w : World) :
  is_object v = true →
  (∀ other, other ∉ (Object_entries v).*1 →
     view other (action net schedule (Normal (ObjectBody v)) w).2 = view other w)
  ∧ (Object_entries v = [] →
     action net schedule (Normal (ObjectBody v)) w
     = (Normal {| status := 200; json := CheckJson no_stores |}, w)).
Proof.
  intros Hobj. split.
  - intros other Hother. by apply action_view_other.
  - by apply action_run_empty.
Qed.

Lemma check_contacts_named_servers_only_witness :
  view "A" (action Sample.net [0; 0]
              (Sample.request [("git", Some (Sample.stdio "mcp-server-git"))])
              [Created "A" 0; Created "git" 0]).2
  = [Created "A" 0]
  ∧ action Sample.net [1] (Normal (ObjectBody (JSArray []))) [Created "A" 0]
    = (Normal {| status := 200; json := CheckJson no_stores |}, [Created "A" 0]).
Proof.
  split.
  - apply (check_contacts_named_servers_only Sample.net [0; 0]
             (JSObject (list_to_map [("git", Some (Sample.stdio "mcp-server-git"))]))
             [Created "A" 0; Created "git" 0] eq_refl).
    change (Object_entries (JSObject ?m)) with (map_to_list m).
    intros Hin. apply list_elem_of_fmap in Hin as ([name cfg] & Hname & Hin).
    apply elem_of_map_to_list in Hin. cbn [fst] in Hname. subst name.
    vm_compute in Hin. discriminate Hin.
  - apply (check_contacts_named_servers_only Sample.net [1] (JSArray [])
             [Created "A" 0] eq_refl).
    reflexivity.
Defined.

(** What the check files for a server: nothing under "__proto__";
    under another name, what the end of [createMCPClient] and the
    answers of the client tell. *)
Lemma action_outcome (net : Network) (schedule : list nat) (v : JSValue)
    (name : string) (cfg : option ServerConfig) (w : World) :
  is_object v = true → (name, cfg) ∈ Object_entries v →
  ∃ result w',
    action net schedule (Normal (ObjectBody v)) w
    = (Normal {| status := 200; json := CheckJson result |}, w')
    ∧ view name w' = view name (w ++ unit_log net name cfg w)
    ∧ outcome result name
      = if String.eqb name "__proto__" then (None, None, None)
        else outcome (verdict net name cfg no_stores) name.
Proof.
  intros Hobj Hin.
  pose proof (action_view net schedule v w name cfg Hobj Hin) as Hview.
  destruct (action_run_object net schedule v w Hobj) as [w' Hrun].
  rewrite Hrun in Hview |- *. cbn [snd] in Hview.
  eexists _, _. split; [reflexivity|]. split; [done|].
  destruct (String.eqb_spec name "__proto__") as [->|Hname].
  - by rewrite verdicts_proto.
  - by apply verdicts_outcome; [apply Object_entries_NoDup|].
Qed.

(** X12. A server whose connection is established, that answers both
    [tools()] calls and whose [close()] succeeds is filed with status
    [true], no error, and the tools that the second [tools()] call
    returned, not those of the call that [createMCPClient] made; unless
    it is named "__proto__", for which nothing is filed.  For this
    server the log gains, in this order: the request for the transport,
    the creation of the client, two [tools()] calls and one
    [close()]. *)
Theorem healthy_server_outcome (net : Network) (schedule : list nat) (v : JSValue)
    (name : string) (c : ServerConfig) (b : Behaviour) (t0 t : ToolSet)
    (w : World) :
  is_object v = true →
  (name, Some c) ∈ Object_entries v →
  established net name c b →
  tools_reply b 0 = Normal t0 → tools_reply b 1 = Normal t →
  close_reply b 0 = Normal tt →
  ∃ result w',
    action net schedule (Normal (ObjectBody v)) w
    = (Normal {| status := 200; json := CheckJson result |}, w')
    ∧ outcome result name
      = (if String.eqb name "__proto__" then (None, None, None)
         else (Some true, None, Some t))
    ∧ view name w'
      = view name w
        ++ [Attempt name (request_of c); Created name (fresh_serial name w);
            ToolsCalled name (fresh_serial name w);
            ToolsCalled name (fresh_serial name w);
            CloseCalled name (fresh_serial name w)].
Proof.
  intros Hobj Hin Hestablished Hprobe Htools Hclose.
  destruct (action_outcome net schedule v name (Some c) w Hobj Hin)
    as (result & w' & Hrun & Hview & Hout).
  pose proof (creation_probe_passed net _ _ _ _ Hestablished Hprobe) as Hcreation.
  exists result, w'. split; [done|]. split.
  - rewrite Hout. destruct (String.eqb_spec name "__proto__") as [->|Hname]; [done|].
    rewrite verdict_outcome by done. by rewrite Hcreation, Htools, Hclose.
  - rewrite Hview, view_app.
    destruct (unit_log_created net name (Some c) b w Hcreation) as (tr & -> & Htr).
    rewrite (Htr c eq_refl). f_equal. apply view_own. by repeat constructor.
Qed.

Lemma healthy_server_outcome_witness :
  ∃ result w',
    action Sample.net [1; 0; 1; 1; 0]
      (Sample.request
         [("git", Some (Sample.stdio "mcp-server-git"));
          ("mute", Some (Sample.stdio "m"))]) []
    = (Normal {| status := 200; json := CheckJson result |}, w')
    ∧ outcome result "git" = (Some true, None, Some Sample.git_tools)
    ∧ view "git" w'
      = [Attempt "git" (StdioTransport (Some "mcp-server-git") None None None);
         Created "git" 0; ToolsCalled "git" 0; ToolsCalled "git" 0;
         CloseCalled "git" 0].
Proof.
  apply (healthy_server_outcome Sample.net [1; 0; 1; 1; 0]
           (JSObject
              (list_to_map
                 [("git", Some (Sample.stdio "mcp-server-git"));
                  ("mute", Some (Sample.stdio "m"))]))
           "git" (Sample.stdio "mcp-server-git") (Sample.healthy Sample.git_tools)
           Sample.git_tools Sample.git_tools []).
  - reflexivity.
  - apply elem_of_map_to_list. reflexivity.
  - split; reflexivity.
  - reflexivity.
  - reflexivity.
  - reflexivity.
Defined.

(** X13. A server whose configuration is accepted and whose transport
    cannot be set up is filed with status [false], the wrapped error of
    [createMCPClient] and no tools; unless it is named "__proto__", for
    which nothing is filed.  For this server the log gains the request
    for the transport and nothing else. *)
Theorem unreachable_server_outcome (net : Network) (schedule : list nat)
    (v : JSValue) (name : string) (c : ServerConfig) (e : Thrown) (w : World) :
  is_object v = true →
  (name, Some c) ∈ Object_entries v →
  refusal name c = None →
  experimental_createMCPClient net name (request_of c) = Abrupt e →
  ∃ result w',
    action net schedule (Normal (ObjectBody v)) w
    = (Normal {| status := 200; json := CheckJson result |}, w')
    ∧ outcome result name
      = (if String.eqb name "__proto__" then (None, None, None)
         else
           (Some false,
            Some (if isSSE c then
                    "Failed to connect to SSE endpoint " +:+ dq
                      +:+ interpolate (url c) +:+ dq +:+ ": " +:+ errorToString e
                  else
                    "Failed to start command " +:+ dq
                      +:+ interpolate (command c) +:+ dq +:+ ": "
                      +:+ errorToString e),
            None))
    ∧ view name w' = view name w ++ [Attempt name (request_of c)].
Proof.
  intros Hobj Hin Haccepted Hconnect.
  destruct (action_outcome net schedule v name (Some c) w Hobj Hin)
    as (result & w' & Hrun & Hview & Hout).
  assert (creation net name (Some c) = Abrupt (ErrorObject (connect_failure c e)))
    as Hcreation.
  { unfold creation. by rewrite Haccepted, Hconnect. }
  exists result, w'. split; [done|]. split.
  - rewrite Hout. destruct (String.eqb_spec name "__proto__") as [->|Hname]; [done|].
    rewrite verdict_outcome by done. by rewrite Hcreation.
  - rewrite Hview, view_app. unfold unit_log. cbv zeta.
    rewrite Hcreation, app_nil_r. unfold creation_log.
    rewrite Haccepted, Hconnect. f_equal. apply view_own. by repeat constructor.
Qed.

Lemma unreachable_server_outcome_witness :
  ∃ result w',
    action Sample.net [0; 0; 1]
      (Sample.request
         [("down", Some (Sample.stdio "d"));
          ("git", Some (Sample.stdio "mcp-server-git"))]) []
    = (Normal {| status := 200; json := CheckJson result |}, w')
    ∧ outcome result "down"
      = (Some false,
         Some ("Failed to start command " +:+ dq +:+ "d" +:+ dq
                 +:+ ": connection refused"),
         None)
    ∧ view "down" w' = [Attempt "down" (StdioTransport (Some "d") None None None)].
Proof.
  apply (unreachable_server_outcome Sample.net [0; 0; 1]
           (JSObject
              (list_to_map
                 [("down", Some (Sample.stdio "d"));
                  ("git", Some (Sample.stdio "mcp-server-git"))]))
           "down" (Sample.stdio "d") (ErrorObject "connection refused") []).
  - reflexivity.
  - apply elem_of_map_to_list. reflexivity.
  - reflexivity.
  - reflexivity.
Defined.

(** X14. An entry of [mcpServers] whose value is [null] (or another
    falsy value) is filed with status [false] and the error "Invalid
    configuration for server ...", with no tools; unless its name is
    "__proto__", for which nothing is filed.  Nothing is asked of the
    outside world for it. *)
Theorem null_entry_outcome (net : Network) (schedule : list nat) (v : JSValue)
    (name : string) (w : World) :
  is_object v = true →
  (name, None) ∈ Object_entries v →
  ∃ result w',
    action net schedule (Normal (ObjectBody v)) w
    = (Normal {| status := 200; json := CheckJson result |}, w')
    ∧ outcome result name
      = (if String.eqb name "__proto__" then (None, None, None)
         else
           (Some false,
            Some ("Invalid configuration for server " +:+ dq +:+ name +:+ dq),
            None))
    ∧ view name w' = view name w.
Proof.
  intros Hobj Hin.
  destruct (action_outcome net schedule v name None w Hobj Hin)
    as (result & w' & Hrun & Hview & Hout).
  exists result, w'. split; [done|]. split.
  - rewrite Hout. destruct (String.eqb_spec name "__proto__") as [->|Hname]; [done|].
    by rewrite verdict_outcome.
  - rewrite Hview. unfold unit_log. simpl. by rewrite !app_nil_r.
Qed.

Lemma null_entry_outcome_witness :
  ∃ result w',
    action Sample.net [1; 1; 0]
      (Sample.request
         [("broken", None); ("git", Some (Sample.stdio "mcp-server-git"))]) []
    = (Normal {| status := 200; json := CheckJson result |}, w')
    ∧ outcome result "broken"
      = (Some false,
         Some ("Invalid configuration for server " +:+ dq +:+ "broken" +:+ dq), None)
    ∧ view "broken" w' = [].
Proof.
  apply (null_entry_outcome Sample.net [1; 1; 0]
           (JSObject
              (list_to_map
                 [("broken", None); ("git", Some (Sample.stdio "mcp-server-git"))]))
           "broken" []).
  - reflexivity.
  - apply elem_of_map_to_list. reflexivity.
Defined.

Lemma pretty_N_go_not_underscore (x : N) (s s' : string) :
  s ≠ String "_" s' → pretty_N_go x s ≠ String "_" s'.
Proof.
  revert s. induction (N.lt_wf_0 x) as [x _ IH]; intros s Hs.
  assert (x = 0 ∨ 0 < x)%N as [->|Hpos] by lia.
  - by rewrite pretty_N_go_0.
  - rewrite pretty_N_go_step by done. apply IH.
    { by apply N.div_lt. }
    unfold pretty_N_char. by repeat case_match.
Qed.

(** The decimal name of an index is not "__proto__". *)
Lemma pretty_nat_not_proto (i : nat) : pretty i ≠ "__proto__".
Proof.
  unfold pretty, pretty_nat, pretty, pretty_N.
  case_decide; [done|]. by apply pretty_N_go_not_underscore.
Qed.

(** X15. An array passes the guard of the check: its items are checked
    as servers named by their indices, written in decimal, and the
    status record holds exactly these names. *)
Theorem array_servers_named_by_index (net : Network) (schedule : list nat)
    (items : list (option ServerConfig)) (w : World) :
  ∃ result w',
    action net schedule (Normal (ObjectBody (JSArray items))) w
    = (Normal {| status := 200; json := CheckJson result |}, w')
    ∧ dom (serverStatus result) = list_to_set (pretty <$> seq 0 (length items))
    ∧ ∀ i cfg, items !! i = Some cfg →
        outcome result (pretty i)
        = outcome (verdict net (pretty i) cfg no_stores) (pretty i).
Proof.
  destruct (action_run_object net schedule (JSArray items) w eq_refl) as [w' ->].
  eexists _, _. split; [reflexivity|]. split.
  - rewrite verdicts_status. cbn [Object_entries no_stores serverStatus].
    rewrite imap_fst, dom_empty_L, (right_id_L ∅ (∪)).
    apply set_eq. intros name.
    rewrite elem_of_difference, elem_of_list_to_set, list_elem_of_fmap.
    split; [by intros [? _]|]. intros (i & -> & Hi). split; [by exists i|].
    rewrite elem_of_singleton. apply pretty_nat_not_proto.
  - intros i cfg Hi. apply verdicts_outcome; [apply Object_entries_NoDup|].
    cbn [Object_entries]. apply elem_of_lookup_imap. by exists i, cfg.
Qed.

Lemma array_servers_named_by_index_witness :
  ∃ result w',
    action Sample.net [0; 1]
      (Normal (ObjectBody (JSArray [None; Some (Sample.stdio "mcp-server-git")]))) []
    = (Normal {| status := 200; json := CheckJson result |}, w')
    ∧ outcome result "1"
      = (Some false, Some ("Failed to start command " +:+ dq +:+ "mcp-server-git"
                             +:+ dq +:+ ": connection refused"), None).
Proof.
  destruct (array_servers_named_by_index Sample.net [0; 1]
              [None; Some (Sample.stdio "mcp-server-git")] [])
    as (result & w' & Hrun & _ & Hitem).
  exists result, w'. split; [exact Hrun|].
  apply (Hitem 1 (Some (Sample.stdio "mcp-server-git"))). reflexivity.
Defined.

(** * The connection panel *)

Section PanelRuns.
Context {L : Type}.

Lemma run_try_finally {A} (body : Task L A) (finalizer : Task L unit) (s : L * World) :
  run (try_finally body finalizer) s
  = match run finalizer (run body s).2 with
    | (Normal _, s') => ((run body s).1, s')
    | (Abrupt e, s') => (Abrupt e, s')
    end.
Proof.
  revert s. induction body as [c|step next IH]; intros s.
  - cbn [try_finally run fst snd]. rewrite run_bind.
    by destruct (run finalizer s) as [[[]|e] s'].
  - cbn [try_finally run]. apply IH.
Qed.

Lemma run_exchange {A} (serve : World → Completion A * World) (l : L) (w : World) :
  run (exchange serve) (l, w) = ((serve w).1, (l, (serve w).2)).
Proof. done. Qed.
End PanelRuns.

Section Panel.
Variable net : Network.
Implicit Types (p : Panel) (w : World) (schedule : list nat) (v : JSValue).

Lemma is_object_truthy v : is_object v = true → js_truthy v = true.
Proof. by destruct v. Qed.

(** What the panel holds after a check that the route has answered
    with the three records. *)
Lemma panel_run_object schedule (reason : nat → string) v p w :
  is_object v = true →
  ∃ w',
    action net schedule (Normal (ObjectBody v)) w
    = (Normal {| status := 200;
                 json := CheckJson (verdicts net (Object_entries v) no_stores) |}, w')
    ∧ run (checkServerAvailability (mcp_check_route net schedule reason)
             (Normal (ObjectBody v))) (p, w)
      = (Normal tt,
         ({| error := None;
             records := verdicts net (Object_entries v) no_stores;
             checkingServers := false;
             expandedServer := expandedServer p |}, w')).
Proof.
  intros Hobj.
  destruct (action_run_object net schedule v w Hobj) as [w' Hrun].
  exists w'. split; [done|].
  unfold checkServerAvailability.
  rewrite run_try_catch. cbn [bind]. rewrite (is_object_truthy v Hobj). cbn [negb].
  rewrite !run_bind, !run_update. cbn [setCheckingServers setError setServerErrors
    setServerTools error records checkingServers expandedServer
    serverStatus serverErrors serverTools].
  rewrite run_bind, run_update, run_bind, run_update, run_bind, run_update.
  rewrite run_try_finally, run_try_catch, run_bind, run_exchange.
  unfold mcp_check_route. rewrite Hrun. cbn [fst snd status json ok http_ok].
  destruct (verdicts net (Object_entries v) no_stores) as [st er tl].
  done.
Qed.
End Panel.

Local Ltac panel_run :=
  repeat first
    [ rewrite run_bind | rewrite run_update | rewrite run_try_catch
    | rewrite run_try_finally | rewrite run_exchange
    | progress cbn [bind throw ret run fst snd negb] ].

(** X16. When [mcpServers] is an object (or an array), the check that
    the panel starts is answered by the route with the three records,
    and the panel ends up showing exactly them: no error, the checking
    flag down, a status for every server of the configuration except
    one named "__proto__", and for no other, so that nothing is left of
    an earlier check. *)
Theorem panel_shows_the_check (net : Network) (schedule : list nat)
    (reason : nat → string) (v : JSValue) (p : Panel) (w : World) :
  is_object v = true →
  ∃ result w',
    action net schedule (Normal (ObjectBody v)) w
    = (Normal {| status := 200; json := CheckJson result |}, w')
    ∧ run (checkServerAvailability (mcp_check_route net schedule reason)
             (Normal (ObjectBody v))) (p, w)
      = (Normal tt,
         ({| error := None; records := result; checkingServers := false;
             expandedServer := expandedServer p |}, w'))
    ∧ dom (serverStatus result)
      = list_to_set (Object_entries v).*1 ∖ {["__proto__"]}.
Proof.
  intros Hobj.
  destruct (panel_run_object net schedule reason v p w Hobj) as (w' & Haction & Hrun).
  eexists _, w'. split; [exact Haction|]. split; [exact Hrun|].
  rewrite verdicts_status. cbn [no_stores serverStatus].
  by rewrite dom_empty_L, (right_id_L ∅ (∪)).
Qed.

Lemma panel_shows_the_check_witness :
  ∃ result w',
    run (checkServerAvailability (mcp_check_route Sample.net [0; 1] (fun _ => "OK"))
           (Sample.request [("git", Some (Sample.stdio "mcp-server-git"));
                            ("down", Some (Sample.stdio "d"))]))
        ({| error := Some "Invalid JSON format";
            records := {| serverStatus := {[ "old" := true ]};
                          serverErrors := ∅; serverTools := ∅ |};
            checkingServers := false; expandedServer := None |}, [])
    = (Normal tt,
       ({| error := None; records := result; checkingServers := false;
           expandedServer := None |}, w'))
    ∧ serverStatus result !! "old" = None.
Proof.
  destruct (panel_shows_the_check Sample.net [0; 1] (fun _ => "OK")
              (JSObject (list_to_map [("git", Some (Sample.stdio "mcp-server-git"));
                                      ("down", Some (Sample.stdio "d"))]))
              {| error := Some "Invalid JSON format";
                 records := {| serverStatus := {[ "old" := true ]};
                               serverErrors := ∅; serverTools := ∅ |};
                 checkingServers := false; expandedServer := None |} [] eq_refl)
    as (result & w' & _ & Hrun & Hdom).
  exists result, w'. split; [exact Hrun|].
  apply not_elem_of_dom. rewrite Hdom.
  change (Object_entries (JSObject ?m)) with (map_to_list m).
  rewrite elem_of_difference, elem_of_list_to_set. intros [Hin _].
  apply list_elem_of_fmap in Hin as ([name cfg] & Hname & Hin).
  apply elem_of_map_to_list in Hin. cbn [fst] in Hname. subst name.
  vm_compute in Hin. discriminate Hin.
Defined.

(** X17. When [mcpServers] is truthy and is not an object (a number, a
    string, [true]), the route answers 400 and the panel shows "Failed
    to check server availability: Server responded with 400: ..." with
    the reason phrase.  The errors and the tools of the earlier check
    are gone, its statuses are still there; the checking flag is down
    and no server was contacted. *)
Theorem panel_reports_refused_check (net : Network) (schedule : list nat)
    (reason : nat → string) (v : JSValue) (p : Panel) (w : World) :
  js_truthy v = true → is_object v = false →
  run (checkServerAvailability (mcp_check_route net schedule reason)
         (Normal (ObjectBody v))) (p, w)
  = (Normal tt,
     ({| error := Some ("Failed to check server availability: "
                          +:+ "Server responded with 400: " +:+ reason 400);
         records := {| serverStatus := serverStatus (records p);
                       serverErrors := ∅; serverTools := ∅ |};
         checkingServers := false;
         expandedServer := expandedServer p |}, w)).
Proof.
  intros Htruthy Hobj. unfold checkServerAvailability.
  rewrite run_try_catch. cbn [bind]. rewrite Htruthy. panel_run.
  unfold mcp_check_route. rewrite action_run_other by done. panel_run.
  done.
Qed.

Lemma panel_reports_refused_check_witness :
  run (checkServerAvailability (mcp_check_route Sample.net [] (fun _ => "Bad Request"))
         (Normal (ObjectBody (JSString "git"))))
      ({| error := None;
          records := {| serverStatus := {[ "git" := false ]};
                        serverErrors := {[ "git" := "connection refused" ]};
                        serverTools := ∅ |};
          checkingServers := false; expandedServer := None |}, [])
  = (Normal tt,
     ({| error := Some ("Failed to check server availability: "
                          +:+ "Server responded with 400: " +:+ "Bad Request");
         records := {| serverStatus := {[ "git" := false ]};
                       serverErrors := ∅; serverTools := ∅ |};
         checkingServers := false; expandedServer := None |}, [])).
Proof.
  apply (panel_reports_refused_check Sample.net [] (fun _ => "Bad Request")
           (JSString "git")); reflexivity.
Defined.

(** X18. [checkServerAvailability] never rejects, whatever [JSON.parse]
    and [fetch] do.  It leaves the checking flag down, except when it
    returns early for want of servers, having changed nothing but the
    error.  Whenever it ends with an error, the statuses are those of
    the earlier check; it ends without an error only when [fetch]
    resolved to a response that is [ok] and whose JSON value has
    [serverStatus] and [serverErrors], and then the three records are
    those of the response, [{}] standing in for errors or tools that
    are falsy, and for tools that are missing. *)
Theorem checkServerAvailability_settles
    (fetch : JSValue → World → Completion FetchResponse * World)
    (JSON_parse : Completion Body) (p : Panel) (w : World) :
  ∃ p' w',
    run (checkServerAvailability fetch JSON_parse) (p, w) = (Normal tt, (p', w'))
    ∧ expandedServer p' = expandedServer p
    ∧ (checkingServers p' = false
       ∨ (p' = setError (Some "No servers configured or invalid configuration") p
          ∧ w' = w))
    ∧ (error p' ≠ None → serverStatus (records p') = serverStatus (records p))
    ∧ (error p' = None →
       ∃ mcpServers response status_member errors_member tools_member,
         fetch mcpServers w = (Normal response, w')
         ∧ ok response = true
         ∧ response_json response
           = Normal (DataObject (Some status_member) errors_member tools_member)
         ∧ has errors_member = true
         ∧ records p' = {| serverStatus := status_member;
                           serverErrors := or_empty errors_member;
                           serverTools := or_empty tools_member |}).
Proof.
  unfold checkServerAvailability. rewrite run_try_catch.
  destruct JSON_parse as [parsed|e]; cbn [bind].
  2:{ panel_run. eexists _, _. split; [reflexivity|]. cbn. naive_solver. }
  set (mcpServers := match parsed with
                     | NullBody => JSUndefined
                     | ObjectBody mcpServers => mcpServers
                     end).
  destruct (js_truthy mcpServers); cbn [negb].
  2:{ panel_run. eexists _, _. split; [reflexivity|]. cbn. naive_solver. }
  panel_run.
  destruct (fetch mcpServers w) as [[response|e] w1] eqn:Hfetch; panel_run.
  2:{ eexists _, _. split; [reflexivity|]. cbn. naive_solver. }
  destruct (ok response) eqn:Hok; panel_run.
  2:{ eexists _, _. split; [reflexivity|]. cbn. naive_solver. }
  destruct (response_json response) as [data|e] eqn:Hjson; panel_run.
  2:{ eexists _, _. split; [reflexivity|]. cbn. naive_solver. }
  destruct data as [|[status_member|] errors_member tools_member]; panel_run.
  1,3: eexists _, _; (split; [reflexivity|]); cbn; naive_solver.
  destruct (has errors_member) eqn:Herrors; panel_run.
  2:{ eexists _, _. split; [reflexivity|]. cbn. naive_solver. }
  destruct (has tools_member) eqn:Htools; panel_run.
  - eexists _, _. split; [reflexivity|]. cbn.
    split; [done|]. split; [by left|]. split; [done|]. intros _.
    exists mcpServers. rewrite Hfetch. eauto 10.
  - eexists _, _. split; [reflexivity|]. cbn.
    split; [done|]. split; [by left|]. split; [done|]. intros _.
    exists mcpServers. rewrite Hfetch.
    exists response, status_member, errors_member, tools_member.
    repeat (split; [done|]). by destruct tools_member.
Qed.

Lemma checkServerAvailability_settles_witness :
  ∃ p' w',
    run (checkServerAvailability
           (fun _ w => (Abrupt (OtherValue "Failed to fetch"), w))
           (Sample.request [("git", Some (Sample.stdio "mcp-server-git"))]))
        ({| error := None;
            records := {| serverStatus := {[ "git" := true ]};
                          serverErrors := ∅;
                          serverTools := {[ "git" := Sample.git_tools ]} |};
            checkingServers := false; expandedServer := Some "git" |}, [])
    = (Normal tt, (p', w'))
    ∧ error p' = Some "Failed to check server availability: Failed to fetch"
    ∧ serverStatus (records p') = {[ "git" := true ]}.
Proof.
  destruct (checkServerAvailability_settles
              (fun _ w => (Abrupt (OtherValue "Failed to fetch"), w))
              (Sample.request [("git", Some (Sample.stdio "mcp-server-git"))])
              {| error := None;
                 records := {| serverStatus := {[ "git" := true ]};
                               serverErrors := ∅;
                               serverTools := {[ "git" := Sample.git_tools ]} |};
                 checkingServers := false; expandedServer := Some "git" |} [])
    as (p' & w' & Hrun & _ & _ & Hstale & _).
  exists p', w'. split; [exact Hrun|].
  injection Hrun as <- <-. split; [reflexivity|].
  apply Hstale. discriminate.
Defined.

Section Rows.
Variable net : Network.

(** What the panel holds of a server after a check that the route has
    answered. *)
Lemma panel_outcome schedule (reason : nat → string) (v : JSValue)
    (name : string) (cfg : option ServerConfig) (p : Panel) (w : World) :
  is_object v = true → (name, cfg) ∈ Object_entries v →
  let p' :=
    (run (checkServerAvailability (mcp_check_route net schedule reason)
            (Normal (ObjectBody v))) (p, w)).2.1 in
  checkingServers p' = false
  ∧ expandedServer p' = expandedServer p
  ∧ outcome (records p') name
    = if String.eqb name "__proto__" then (None, None, None)
      else outcome (verdict net name cfg no_stores) name.
Proof.
  intros Hobj Hin. cbv zeta.
  destruct (panel_run_object net schedule reason v p w Hobj) as (w' & _ & ->).
  cbn [fst snd records checkingServers expandedServer].
  split; [done|]. split; [done|].
  destruct (String.eqb_spec name "__proto__") as [->|Hname].
  - by rewrite verdicts_proto.
  - by apply verdicts_outcome; [apply Object_entries_NoDup|].
Qed.
End Rows.

(** X19. After a check of a server whose connection is established,
    whose second [tools()] call fails and whose [close()] succeeds, the
    records hold the error "Connected but failed to get tools: ..." for
    it (unless it is named "__proto__"), and the list never shows it:
    the row of the server carries the badge "available" and no error
    line.  It has no tool panel either, expanded or not, except for a
    server that bears the name of a property that every object
    inherits, such as "constructor": when expanded, its tool panel is
    given that inherited value. *)
Theorem failed_tool_listing_is_not_shown (net : Network) (schedule : list nat)
    (reason : nat → string) (v : JSValue) (name : string) (c : ServerConfig)
    (b : Behaviour) (t0 : ToolSet) (e : Thrown) (p : Panel) (w : World) :
  is_object v = true →
  (name, Some c) ∈ Object_entries v →
  established net name c b →
  tools_reply b 0 = Normal t0 → tools_reply b 1 = Abrupt e →
  close_reply b 0 = Normal tt →
  let p' :=
    (run (checkServerAvailability (mcp_check_route net schedule reason)
            (Normal (ObjectBody v))) (p, w)).2.1 in
  (name ≠ "__proto__" →
   serverErrors (records p') !! name
   = Some ("Connected but failed to get tools: " +:+ errorToString e))
  ∧ ∀ expanded,
      ∃ row,
        renderServer (setExpandedServer expanded p') name (Some c) = Some row
        ∧ badge row = Some available
        ∧ errorLine row = None
        ∧ toolPanel row
          = if bool_decide (expanded = Some name) && inherited name
            then Some Inherited else None.
Proof.
  intros Hobj Hin Hestablished Hprobe Htools Hclose.
  destruct (panel_outcome net schedule reason v name (Some c) p w Hobj Hin)
    as (Hchecking & _ & Hout).
  cbv zeta in *.
  set (p' := (run (checkServerAvailability (mcp_check_route net schedule reason)
                     (Normal (ObjectBody v))) (p, w)).2.1) in *.
  destruct (String.eqb_spec name "__proto__") as [->|Hname].
  - unfold outcome in Hout. injection Hout as Hstatus Herrors Htoolset.
    split; [done|]. intros expanded. eexists. split; [reflexivity|].
    cbn [badge errorLine toolPanel setExpandedServer records checkingServers
         expandedServer].
    unfold has_property, read. rewrite Hchecking, Hstatus, Htoolset.
    cbn. by destruct (bool_decide (expanded = Some "__proto__")).
  - rewrite (verdict_outcome net name (Some c) no_stores Hname) in Hout.
    rewrite (creation_probe_passed net _ _ _ _ Hestablished Hprobe), Htools, Hclose
      in Hout.
    unfold outcome in Hout. injection Hout as Hstatus Herrors Htoolset.
    cbn [no_stores serverTools] in Htoolset. rewrite lookup_empty in Htoolset.
    split; [done|]. intros expanded. eexists. split; [reflexivity|].
    cbn [badge errorLine toolPanel setExpandedServer records checkingServers
         expandedServer].
    unfold has_property, read. rewrite Hchecking, Hstatus, Htoolset.
    cbn. destruct (bool_decide (expanded = Some name)), (inherited name); done.
Qed.

Lemma failed_tool_listing_is_not_shown_witness :
  let p' :=
    (run (checkServerAvailability (mcp_check_route Sample.net [1; 0] (fun _ => "OK"))
            (Sample.request [("fading", Some (Sample.stdio "f"))]))
         ({| error := None; records := no_stores; checkingServers := false;
             expandedServer := None |}, [])).2.1 in
  serverErrors (records p') !! "fading"
  = Some "Connected but failed to get tools: Request timed out"
  ∧ ∃ row,
      renderServer (setExpandedServer (Some "fading") p') "fading"
        (Some (Sample.stdio "f"))
      = Some row
      ∧ badge row = Some available ∧ errorLine row = None ∧ toolPanel row = None.
Proof.
  destruct (failed_tool_listing_is_not_shown Sample.net [1; 0] (fun _ => "OK")
              (JSObject (list_to_map [("fading", Some (Sample.stdio "f"))]))
              "fading" (Sample.stdio "f") (Sample.fading Sample.git_tools)
              Sample.git_tools (ErrorObject "Request timed out")
              {| error := None; records := no_stores; checkingServers := false;
                 expandedServer := None |} [])
    as [Herror Hrow].
  - reflexivity.
  - apply elem_of_map_to_list. reflexivity.
  - split; reflexivity.
  - reflexivity.
  - reflexivity.
  - reflexivity.
  - split; [apply Herror; discriminate|]. apply (Hrow (Some "fading")).
Defined.

(** The row of a server whose value in the configuration is an
    object, after a check that the route has answered. *)
Lemma row_after_check (net : Network) (schedule : list nat)
    (reason : nat → string) (v : JSValue) (name : string) (c : ServerConfig)
    (p : Panel) (w : World) :
  is_object v = true →
  (name, Some c) ∈ Object_entries v →
  let p' :=
    (run (checkServerAvailability (mcp_check_route net schedule reason)
            (Normal (ObjectBody v))) (p, w)).2.1 in
  ∃ row,
    renderServer p' name (Some c) = Some row
    ∧ (badge row = Some available ∨ badge row = Some unavailable)
    ∧ (badge row = Some available → errorLine row = None)
    ∧ (badge row = Some unavailable → toolPanel row = None)
    ∧ ((∀ b, creation net name (Some c) = Normal b → close_reply b 0 = Normal tt) →
       badge row = Some unavailable →
       ∃ message, errorLine row = Some (Own message) ∧ message ≠ "").
Proof.
  intros Hobj Hin.
  destruct (panel_outcome net schedule reason v name (Some c) p w Hobj Hin)
    as (Hchecking & _ & Hout).
  cbv zeta in *.
  set (p' := (run (checkServerAvailability (mcp_check_route net schedule reason)
                     (Normal (ObjectBody v))) (p, w)).2.1) in *.
  eexists. split; [reflexivity|].
  cbn [badge errorLine toolPanel]. unfold has_property, read. rewrite Hchecking.
  destruct (String.eqb_spec name "__proto__") as [->|Hname].
  - unfold outcome in Hout. injection Hout as -> -> ->.
    cbn. repeat split; first [done | by left].
  - rewrite (verdict_outcome net name (Some c) no_stores Hname) in Hout.
    unfold outcome in Hout.
    destruct (creation net name (Some c)) as [b|e] eqn:Hcreation.
    + injection Hout as -> Herrors Htoolset.
      destruct (close_reply b 0) as [[]|e] eqn:Hclose; cbn.
      * repeat split; first [done | by left].
      * repeat split;
          first [done | by right | by rewrite !andb_false_r | idtac].
        intros Hno. specialize (Hno b eq_refl). congruence.
    + destruct (creation_message net name (Some c) e Hcreation)
        as (message & -> & Hmessage).
      injection Hout as -> -> Htoolset. cbn.
      assert (String.eqb message "" = false) as ->
        by (by apply String.eqb_neq).
      cbn. repeat split;
        first [done | by right | by rewrite !andb_false_r | eauto].
Qed.

(** X20. The list of the servers after a check that the route has
    answered.  If the value of a server in the configuration is [null],
    the list throws.  Otherwise the list has a row for every server of
    the configuration, in the order of the entries (and its notice when
    there is no server), and every row has a badge, "available" or
    "unavailable" and not "checking"; a row with the badge "available"
    has no error line, and a row with the badge "unavailable" has no
    tool panel.  Unless the [close()] of its client failed, a server
    with the badge "unavailable" has an error line, which shows a
    message of the records that is not empty. *)
Theorem checked_server_gets_a_badge (net : Network) (schedule : list nat)
    (reason : nat → string) (v : JSValue) (p : Panel) (w : World) :
  is_object v = true →
  let p' :=
    (run (checkServerAvailability (mcp_check_route net schedule reason)
            (Normal (ObjectBody v))) (p, w)).2.1 in
  (∀ name, (name, None) ∈ Object_entries v →
           renderServerList p' (Object_entries v) = None)
  ∧ ((∀ name, (name, None) ∉ Object_entries v) →
     ∃ rows,
       renderServerList p' (Object_entries v)
       = Some (match Object_entries v with
               | [] => Notice "No MCP servers configured"
               | _ :: _ => Rows rows
               end)
       ∧ rows.*1 = (Object_entries v).*1
       ∧ ∀ name row,
           (name, row) ∈ rows →
           (badge row = Some available ∨ badge row = Some unavailable)
           ∧ (badge row = Some available → errorLine row = None)
           ∧ (badge row = Some unavailable → toolPanel row = None)
           ∧ ((∀ c b, (name, Some c) ∈ Object_entries v →
                      creation net name (Some c) = Normal b →
                      close_reply b 0 = Normal tt) →
              badge row = Some unavailable →
              ∃ message, errorLine row = Some (Own message) ∧ message ≠ "")).
Proof.
  intros Hobj. cbv zeta.
  set (p' := (run (checkServerAvailability (mcp_check_route net schedule reason)
                     (Normal (ObjectBody v))) (p, w)).2.1).
  set (render := fun '(serverName, serverConfig) =>
                   pair serverName <$> renderServer p' serverName serverConfig).
  split.
  - intros name Hin. unfold renderServerList.
    destruct (Object_entries v) as [|entry entries] eqn:Hentries;
      [by apply elem_of_nil in Hin|].
    cbn [length Nat.eqb]. fold render.
    destruct (mapM render (entry :: entries)) as [rows|] eqn:Hrows; [|done].
    assert (is_Some (mapM render (entry :: entries))) as Hsome by eauto.
    rewrite mapM_is_Some, Forall_forall in Hsome.
    by destruct (Hsome _ Hin) as [? ?].
  - intros Hconfigured.
    assert (is_Some (mapM render (Object_entries v))) as [rows Hrows].
    { rewrite mapM_is_Some, Forall_forall. intros [name [c|]] Hin.
      - by eexists.
      - by destruct (Hconfigured name). }
    exists rows. split; [|split].
    + unfold renderServerList. fold render. rewrite Hrows.
      destruct (Object_entries v) as [|entry entries]; [|done].
      by injection Hrows as <-.
    + apply mapM_Some in Hrows. clear -Hrows.
      induction Hrows as [|[name cfg] [name' row] entries rows Hrow _ IH];
        [done|].
      cbn [fmap list_fmap fst]. rewrite IH. f_equal.
      unfold render in Hrow. by destruct (renderServer p' name cfg); simplify_eq/=.
    + intros name row Hin. apply mapM_Some in Hrows.
      assert (∃ cfg, (name, cfg) ∈ Object_entries v
                     ∧ renderServer p' name cfg = Some row) as (cfg & Hentry & Hrow).
      { clear -Hrows Hin.
        induction Hrows as [|[name0 cfg0] [name1 row1] entries rows Hrow _ IH];
          [by apply elem_of_nil in Hin|].
        apply elem_of_cons in Hin as [Hin|Hin].
        - injection Hin as <- <-. exists cfg0. unfold render in Hrow.
          destruct (renderServer p' name0 cfg0) eqn:Hrendered; simplify_eq/=.
          split; [left|done].
        - destruct (IH Hin) as (cfg & Hentry & Hrendered).
          exists cfg. split; [by right|done]. }
      destruct cfg as [c|]; [|done].
      destruct (row_after_check net schedule reason v name c p w Hobj Hentry)
        as (row' & Hrow' & Hbadge & Havailable & Hunavailable & Hline).
      fold p' in Hrow'. rewrite Hrow in Hrow'. injection Hrow' as <-.
      repeat split; try done. intros Hclose. apply Hline.
      intros b. by apply Hclose.
Qed.

Lemma checked_server_gets_a_badge_witness :
  let p' :=
    (run (checkServerAvailability (mcp_check_route Sample.net [0; 1] (fun _ => "OK"))
            (Sample.request [("mute", Some (Sample.stdio "m"));
                             ("git", Some (Sample.stdio "mcp-server-git"))]))
         ({| error := None; records := no_stores; checkingServers := false;
             expandedServer := Some "mute" |}, [])).2.1 in
  ∃ rows,
    renderServerList p'
      (Object_entries (JSObject (list_to_map
         [("mute", Some (Sample.stdio "m"));
          ("git", Some (Sample.stdio "mcp-server-git"))])))
    = Some (Rows rows)
    ∧ length rows = 2
    ∧ ∀ name row,
        (name, row) ∈ rows →
        badge row = Some available ∨ badge row = Some unavailable.
Proof.
  destruct (checked_server_gets_a_badge Sample.net [0; 1] (fun _ => "OK")
              (JSObject (list_to_map
                 [("mute", Some (Sample.stdio "m"));
                  ("git", Some (Sample.stdio "mcp-server-git"))]))
              {| error := None; records := no_stores; checkingServers := false;
                 expandedServer := Some "mute" |} [] eq_refl)
    as [_ Hlist].
  destruct Hlist as (rows & Hrows & Hnames & Hbadges).
  - intros name Hin. apply elem_of_map_to_list in Hin. vm_compute in Hin.
    by repeat case_match.
  - exists rows. split; [exact Hrows|]. split.
    + rewrite <-(length_fmap fst), Hnames, length_fmap. reflexivity.
    + intros name row Hin. by destruct (Hbadges name row Hin) as [? _].
Defined.

(** X21. The list and the service do not tell the kind of a server in
    the same way.  A server that has a [url], no [command] and a [type]
    other than "sse" is contacted over the event stream, and the list
    shows it as a command: the text beside its name is the (missing)
    command, a space and the arguments, and not "SSE: ..." with the
    URL. *)
Theorem url_only_server_is_listed_as_command (net : Network) {L : Type}
    (serverName : string) (c : ServerConfig) (p : Panel) (l : L) (w : World) :
  type c ≠ Some "sse" → truthy (command c) = false → truthy (url c) = true →
  (∃ r rest,
     run (createMCPClient net serverName (Some c)) (l, w)
     = (r, (l, w ++ Attempt serverName (SSETransport (url c)) :: rest)))
  ∧ ∃ row,
      renderServer p serverName (Some c) = Some row
      ∧ summary row
        = default "" (command c) +:+ " "
            +:+ default "" (String.concat " " <$> args c).
Proof.
  intros Htype Hcommand Hurl. split.
  - rewrite createMCPClient_run. unfold creation_log, refusal, request_of.
    assert (isSSE c = true) as ->.
    { unfold isSSE. by rewrite Hcommand, Hurl, orb_true_r. }
    rewrite Hurl. cbn [negb andb].
    destruct (experimental_createMCPClient net serverName (SSETransport (url c)));
      by eexists _, _.
  - eexists. split; [reflexivity|]. cbn [summary]. by rewrite bool_decide_false.
Qed.

Lemma url_only_server_is_listed_as_command_witness :
  (∃ r rest,
     run (createMCPClient Sample.net "remote"
            (Some {| command := None; args := None;
                     url := Some "http://localhost:8000/sse"; env := None;
                     type := None; cwd := None |})) (tt, [])
     = (r, (tt, [] ++ Attempt "remote" (SSETransport (Some "http://localhost:8000/sse"))
                   :: rest)))
  ∧ ∃ row,
      renderServer
        {| error := None; records := no_stores; checkingServers := false;
           expandedServer := None |}
        "remote"
        (Some {| command := None; args := None;
                 url := Some "http://localhost:8000/sse"; env := None;
                 type := None; cwd := None |})
      = Some row
      ∧ summary row = " ".
Proof.
  apply (url_only_server_is_listed_as_command Sample.net "remote"
           {| command := None; args := None;
              url := Some "http://localhost:8000/sse"; env := None;
              type := None; cwd := None |}).
  - discriminate.
  - reflexivity.
  - reflexivity.
Defined.

Lemma includes_append (needle a b : string) :
  includes needle b = true → includes needle (a +:+ b) = true.
Proof.
  intros Hb. induction a as [|ch a IH]; [done|].
  change (String ch a +:+ b) with (String ch (a +:+ b)).
  cbn [includes]. by rewrite IH, orb_true_r.
Qed.

(** X27. A failure of the check whose cause mentions "JSON" does not
    stay on the screen.  When the response of [fetch] is [ok] and its
    body cannot be read as JSON, the check ends with "Failed to check
    server availability: ..." and the cause; the effect that parses the
    text of the configuration runs because [error] has changed, and
    when the text is valid JSON it sees "JSON" in the error and clears
    it.  What is left is the statuses of the earlier check, without
    errors and tools. *)
Theorem check_error_mentioning_JSON_is_cleared
    (fetch : JSValue → World → Completion FetchResponse * World)
    (mcpServers : JSValue) (response : FetchResponse) (e : Thrown)
    (parsed : Body) (p : Panel) (w w1 : World) :
  js_truthy mcpServers = true →
  fetch mcpServers w = (Normal response, w1) →
  ok response = true →
  response_json response = Abrupt e →
  includes "JSON" (errorToString e) = true →
  let p' :=
    (run (checkServerAvailability fetch (Normal (ObjectBody mcpServers)))
       (p, w)).2.1 in
  error p' = Some ("Failed to check server availability: " +:+ errorToString e)
  ∧ (parse_effect (Normal parsed) p').2
    = {| error := None;
         records := {| serverStatus := serverStatus (records p);
                       serverErrors := ∅; serverTools := ∅ |};
         checkingServers := false;
         expandedServer := expandedServer p |}.
Proof.
  intros Htruthy Hfetch Hok Hjson Hincludes. cbv zeta.
  unfold checkServerAvailability.
  rewrite run_try_catch. cbn [bind]. rewrite Htruthy. panel_run.
  rewrite Hfetch. panel_run. rewrite Hok. panel_run. rewrite Hjson. panel_run.
  split; [done|].
  unfold parse_effect. cbn [error setError setCheckingServers from_option snd].
  by rewrite includes_append.
Qed.

Lemma check_error_mentioning_JSON_is_cleared_witness :
  let fetch := fun (_ : JSValue) (w : World) =>
    (Normal {| ok := true; response_status := 200; statusText := "OK";
               response_json :=
                 Abrupt (ErrorObject "Unexpected token < in JSON at position 0") |},
     w) in
  let p := {| error := None;
              records := {| serverStatus := {[ "git" := true ]};
                            serverErrors := ∅;
                            serverTools := {[ "git" := Sample.git_tools ]} |};
              checkingServers := false; expandedServer := None |} in
  let p' :=
    (run (checkServerAvailability fetch (Normal (ObjectBody (JSObject ∅))))
       (p, [])).2.1 in
  error p'
  = Some "Failed to check server availability: Unexpected token < in JSON at position 0"
  ∧ (parse_effect (Normal (ObjectBody (JSObject ∅))) p').2
    = {| error := None;
         records := {| serverStatus := {[ "git" := true ]};
                       serverErrors := ∅; serverTools := ∅ |};
         checkingServers := false; expandedServer := None |}.
Proof.
  intros fetch p.
  apply (check_error_mentioning_JSON_is_cleared fetch (JSObject ∅)
           {| ok := true; response_status := 200; statusText := "OK";
              response_json :=
                Abrupt (ErrorObject "Unexpected token < in JSON at position 0") |}
           (ErrorObject "Unexpected token < in JSON at position 0")
           (ObjectBody (JSObject ∅)) p [] []); reflexivity.
Defined.

(** * The listeners of [mcpConfigEvents] *)

Section Listeners.
Context {Callback : Type} `{EqDecision Callback}.
Implicit Types (callback : Callback) (listeners : list Callback).

Lemma Set_add_elem callback listeners c :
  c ∈ mcpConfigEvents.Set_add callback listeners ↔ c = callback ∨ c ∈ listeners.
Proof.
  unfold mcpConfigEvents.Set_add. case_decide.
  - split; [by right|]. by intros [->|?].
  - rewrite elem_of_app, list_elem_of_singleton. tauto.
Qed.

Lemma Set_add_NoDup callback listeners :
  NoDup listeners → NoDup (mcpConfigEvents.Set_add callback listeners).
Proof.
  intros Hnodup. unfold mcpConfigEvents.Set_add. case_decide; [done|].
  apply NoDup_app. split; [done|]. split; [|apply NoDup_singleton].
  intros c Hc Hc'. apply list_elem_of_singleton in Hc'. by subst.
Qed.

Lemma Set_delete_fresh callback listeners :
  callback ∉ listeners → mcpConfigEvents.Set_delete callback listeners = listeners.
Proof.
  intros Hnotin. unfold mcpConfigEvents.Set_delete.
  induction listeners as [|c listeners IH]; [done|].
  rewrite filter_cons. apply not_elem_of_cons in Hnotin as [Hne Hnotin].
  rewrite decide_True by done. by rewrite IH.
Qed.

Lemma subscriptions_NoDup (subscribed : list Callback) listeners :
  NoDup listeners →
  NoDup (foldl (fun ls callback => (mcpConfigEvents.addListener callback ls).1)
           listeners subscribed)
  ∧ ∀ c, c ∈ foldl (fun ls callback => (mcpConfigEvents.addListener callback ls).1)
                 listeners subscribed
         ↔ c ∈ listeners ∨ c ∈ subscribed.
Proof.
  revert listeners. induction subscribed as [|callback subscribed IH];
    intros listeners Hnodup.
  { split; [done|]. intros c. rewrite elem_of_nil. tauto. }
  cbn [foldl mcpConfigEvents.addListener fst].
  destruct (IH (mcpConfigEvents.Set_add callback listeners)
              (Set_add_NoDup callback listeners Hnodup)) as [Hnodup' Helem].
  split; [done|]. intros c. rewrite Helem, Set_add_elem, elem_of_cons. tauto.
Qed.

Lemma notifyChange_trace listeners (trace : list Callback) :
  mcpConfigEvents.notifyChange
    (fun callback (trace : list Callback) => (Normal tt, trace ++ [callback]))
    listeners trace
  = (Normal tt, trace ++ listeners).
Proof.
  revert trace. induction listeners as [|c listeners IH]; intros trace.
  { by rewrite app_nil_r. }
  cbn [mcpConfigEvents.notifyChange]. rewrite IH. by rewrite <- app_assoc.
Qed.
End Listeners.

(** X22. The function that [addListener] returns undoes the
    registration.  The callback is registered when [addListener]
    returns, beside the listeners that were there, and no listener is
    registered twice; if the callback was not registered before,
    calling the returned function at once gives the listeners back as
    they were; whenever it is called, the callback is no longer
    registered afterwards, and the other listeners are, in their
    order. *)
Theorem cleanup_removes_listener {Callback : Type} `{EqDecision Callback}
    (callback : Callback) (listeners later : list Callback) :
  let listeners' := (mcpConfigEvents.addListener callback listeners).1 in
  let cleanup := (mcpConfigEvents.addListener callback listeners).2 in
  (∀ c, c ∈ listeners' ↔ c = callback ∨ c ∈ listeners)
  ∧ (NoDup listeners → NoDup listeners')
  ∧ (callback ∉ listeners → cleanup listeners' = listeners)
  ∧ (callback ∉ cleanup later)
  ∧ (∀ c, c ≠ callback → (c ∈ cleanup later ↔ c ∈ later))
  ∧ (cleanup later `sublist_of` later).
Proof.
  cbv zeta. cbn [mcpConfigEvents.addListener fst snd].
  split; [apply Set_add_elem|]. split; [apply Set_add_NoDup|]. split; [|split; [|split]].
  - intros Hnotin. unfold mcpConfigEvents.Set_add.
    rewrite decide_False by done. unfold mcpConfigEvents.Set_delete.
    rewrite filter_app, filter_cons, decide_False by (by intros Hne; apply Hne).
    rewrite filter_nil, app_nil_r. by apply Set_delete_fresh.
  - unfold mcpConfigEvents.Set_delete. rewrite list_elem_of_filter.
    by intros [Hne _].
  - intros c Hne. unfold mcpConfigEvents.Set_delete. rewrite list_elem_of_filter.
    tauto.
  - apply sublist_filter.
Qed.

Lemma cleanup_removes_listener_witness :
  (mcpConfigEvents.addListener 2 [1; 3]).2 (mcpConfigEvents.addListener 2 [1; 3]).1
  = [1; 3].
Proof.
  apply (cleanup_removes_listener 2 [1; 3] []).
  intros Hin. apply elem_of_cons in Hin as [Hin|Hin]; [discriminate Hin|].
  apply list_elem_of_singleton in Hin. discriminate Hin.
Defined.

(** X23. However often callbacks were registered on the empty set of
    listeners, [notifyChange] calls each registered callback exactly
    once, and calls nothing else; it completes normally when every
    callback does. *)
Theorem notifyChange_calls_each_listener_once {Callback : Type}
    `{EqDecision Callback} (subscribed : list Callback) :
  let listeners :=
    foldl (fun ls callback => (mcpConfigEvents.addListener callback ls).1)
      [] subscribed in
  ∃ calls,
    mcpConfigEvents.notifyChange
      (fun callback (trace : list Callback) => (Normal tt, trace ++ [callback]))
      listeners []
    = (Normal tt, calls)
    ∧ NoDup calls
    ∧ ∀ c, c ∈ calls ↔ c ∈ subscribed.
Proof.
  cbv zeta. rewrite notifyChange_trace. eexists. split; [reflexivity|].
  destruct (subscriptions_NoDup subscribed [] (NoDup_nil_2 (A := Callback)))
    as [Hnodup Helem].
  cbn [app]. split; [done|]. intros c. rewrite Helem, elem_of_nil. tauto.
Qed.

(** X24. When a listener throws, [notifyChange] throws what it threw,
    and the listeners registered after it are not called. *)
Theorem failing_listener_stops_notification {Callback State : Type}
    (call : Callback → State → Completion unit * State)
    (before after : list Callback) (callback : Callback)
    (s s1 s2 : State) (e : Thrown) :
  mcpConfigEvents.notifyChange call before s = (Normal tt, s1) →
  call callback s1 = (Abrupt e, s2) →
  mcpConfigEvents.notifyChange call (before ++ callback :: after) s
  = (Abrupt e, s2).
Proof.
  revert s. induction before as [|c before IH]; intros s Hbefore Hthrow.
  - cbn in Hbefore. injection Hbefore as ->.
    cbn [app mcpConfigEvents.notifyChange]. by rewrite Hthrow.
  - cbn [app mcpConfigEvents.notifyChange] in *.
    destruct (call c s) as [[[]|e'] s'] eqn:Hcall; [|done].
    by apply IH.
Qed.

Lemma failing_listener_stops_notification_witness :
  mcpConfigEvents.notifyChange
    (fun (callback : nat) (trace : list nat) =>
       if Nat.eqb callback 2
       then (Abrupt (ErrorObject "listener failed"), trace ++ [callback])
       else (Normal tt, trace ++ [callback]))
    ([1] ++ 2 :: [3]) []
  = (Abrupt (ErrorObject "listener failed"), [1; 2]).
Proof.
  apply (failing_listener_stops_notification _ [1] [3] 2 [] [1] [1; 2]);
    reflexivity.
Defined.
